(** * Verification of scripts/migrate_to_multiauthor.py

    A shallow embedding of the frontmatter reader ([parse_yaml_frontmatter]),
    the schema converter ([convert_to_multiauthor]) and the frontmatter
    writer ([write_yaml_frontmatter], [format_yaml_value]), followed by the
    properties of the migration that the specification states.

    Modelling choices.
    - A Python [str] is a [list ascii]; a character is a code point below
      256 (Latin-1).  On that range [str.isspace] holds exactly for the code
      points 9-13, 28-32, 133 and 160, and the regular expression class [\d]
      is exactly the ten ASCII digits.
    - A Python [dict] is an association list in insertion order with unique
      keys; assignment to an existing key keeps the key's position.
    - A raised exception is a value of [result]. *)

From Stdlib Require Import String List Ascii Bool Arith Lia.
Import ListNotations.

#[local] Abbreviation length := Datatypes.length.

Set Implicit Arguments.

(** ** Python strings *)

Module Py.

Definition str := list ascii.

Definition lit (s : string) : str := list_ascii_of_string s.
Arguments lit : simpl never.

Definition LF : ascii := "010"%char.
Definition DQUOTE : ascii := "034"%char.
Definition SQUOTE : ascii := "039"%char.
Definition BACKSLASH : ascii := "092"%char.

Fixpoint str_eqb (a b : str) : bool :=
  match a, b with
  | [], [] => true
  | x :: a', y :: b' => Ascii.eqb x y && str_eqb a' b'
  | _, _ => false
  end.

(** [c.isspace()] for a code point below 256. *)
Definition isspace (c : ascii) : bool :=
  let n := nat_of_ascii c in
  ((9 <=? n) && (n <=? 13)) || ((28 <=? n) && (n <=? 32))
  || (n =? 133) || (n =? 160).

(** [\d] for a code point below 256. *)
Definition isdigit (c : ascii) : bool :=
  let n := nat_of_ascii c in (48 <=? n) && (n <=? 57).

Fixpoint drop_while (p : ascii -> bool) (s : str) : str :=
  match s with
  | [] => []
  | c :: s' => if p c then drop_while p s' else s
  end.

(** [s.lstrip()], [s.rstrip()], [s.strip()] *)
Definition lstrip (s : str) : str := drop_while isspace s.
Definition rstrip (s : str) : str := rev (drop_while isspace (rev s)).
Definition strip (s : str) : str := rstrip (lstrip s).

(** [s.rstrip(c)] for a one-character argument *)
Definition rstrip_char (c : ascii) (s : str) : str :=
  rev (drop_while (Ascii.eqb c) (rev s)).

(** [s.startswith(p)] *)
Fixpoint startswith (p s : str) : bool :=
  match p, s with
  | [], _ => true
  | x :: p', y :: s' => Ascii.eqb x y && startswith p' s'
  | _ :: _, [] => false
  end.

(** [s.endswith(p)] *)
Definition endswith (p s : str) : bool := startswith (rev p) (rev s).

(** [sub in s] *)
Fixpoint contains (sub s : str) : bool :=
  startswith sub s
  || match s with
     | [] => false
     | _ :: s' => contains sub s'
     end.

Definition cons_head (c : ascii) (ps : list str) : list str :=
  match ps with
  | p :: ps' => (c :: p) :: ps'
  | [] => [[c]]
  end.

(** [s.split(sep)] for a non-empty [sep]: the pieces between the
    non-overlapping occurrences of [sep], found from the left.  [skip]
    counts the characters of a separator that remain to be passed. *)
Fixpoint split_go (sep : str) (skip : nat) (s : str) : list str :=
  match s with
  | [] => [[]]
  | c :: s' =>
      match skip with
      | S k => split_go sep k s'
      | O =>
          if startswith sep s
          then [] :: split_go sep (length sep - 1) s'
          else cons_head c (split_go sep 0 s')
      end
  end.

Definition split (sep s : str) : list str := split_go sep 0 s.

(** [sep.join(ps)] *)
Fixpoint join (sep : str) (ps : list str) : str :=
  match ps with
  | [] => []
  | [p] => p
  | p :: ps' => p ++ sep ++ join sep ps'
  end.

(** [s.partition(c)]: the text before the first [c] and the text after it
    (the whole of [s] and the empty string when [c] does not occur). *)
Fixpoint partition (c : ascii) (s : str) : str * str :=
  match s with
  | [] => ([], [])
  | x :: s' =>
      if Ascii.eqb x c then ([], s')
      else let (a, b) := partition c s' in (x :: a, b)
  end.

(** [s[1:-1]] *)
Definition slice_1_m1 (s : str) : str := removelast (tl s).

(** [re.sub(p1|p2|..., '', s)] for literal alternatives: at each position
    the first alternative that matches is removed, and scanning resumes
    after it. *)
Fixpoint re_sub_go (pats : list str) (skip : nat) (s : str) : str :=
  match s with
  | [] => []
  | c :: s' =>
      match skip with
      | S k => re_sub_go pats k s'
      | O =>
          match find (fun p => startswith p s) pats with
          | Some p => re_sub_go pats (length p - 1) s'
          | None => c :: re_sub_go pats 0 s'
          end
      end
  end.

Definition re_sub_empty (pats : list str) (s : str) : str :=
  re_sub_go pats 0 s.

(** [re.search(p1|p2|..., s)] for literal alternatives *)
Definition re_search_any (pats : list str) (s : str) : bool :=
  existsb (fun p => contains p s) pats.

(** [(.*?)close] under [re.DOTALL], anchored at the start of [s]: the
    shortest prefix followed by [close], and the text after the match. *)
Fixpoint lazy_until (close s : str) : option (str * str) :=
  if startswith close s then Some ([], skipn (length close) s)
  else match s with
       | [] => None
       | c :: s' =>
           match lazy_until close s' with
           | Some (g, rest) => Some (c :: g, rest)
           | None => None
           end
       end.

(** [\d{n}] at the start of [s]: the text after the digits *)
Fixpoint re_digits (n : nat) (s : str) : option str :=
  match n with
  | O => Some s
  | S k =>
      match s with
      | c :: s' => if isdigit c then re_digits k s' else None
      | [] => None
      end
  end.

(** a literal character at the start of [s] *)
Definition re_char (c : ascii) (s : str) : option str :=
  match s with
  | x :: s' => if Ascii.eqb x c then Some s' else None
  | [] => None
  end.

(** [$] without [re.MULTILINE]: the end of the string, or the position
    before a newline that ends the string. *)
Definition re_dollar (s : str) : bool :=
  match s with
  | [] => true
  | [c] => Ascii.eqb c LF
  | _ => false
  end.

Definition obind {A B} (o : option A) (f : A -> option B) : option B :=
  match o with
  | Some a => f a
  | None => None
  end.

(** [repr(s)] of a [str] of code points below 256.  A Rocq string has no
    escape sequences: ["\t"] below is the two characters backslash and t,
    which is what [repr] prints for a tab. *)
Definition hex_digit (n : nat) : ascii :=
  nth n (lit "0123456789abcdef") "0"%char.

Definition isprintable (c : ascii) : bool :=
  let n := nat_of_ascii c in
  ((32 <=? n) && (n <=? 126)) || ((161 <=? n) && negb (n =? 173)).

Definition repr_char (quote c : ascii) : str :=
  let n := nat_of_ascii c in
  if Ascii.eqb c quote || Ascii.eqb c BACKSLASH then [BACKSLASH; c]
  else if n =? 9 then lit "\t"
  else if n =? 10 then lit "\n"
  else if n =? 13 then lit "\r"
  else if isprintable c then [c]
  else lit "\x" ++ [hex_digit (n / 16); hex_digit (n mod 16)].

Definition repr_str (s : str) : str :=
  let quote :=
    if contains [SQUOTE] s && negb (contains [DQUOTE] s)
    then DQUOTE else SQUOTE in
  quote :: flat_map (repr_char quote) s ++ [quote].

(** [repr(l)] of a list of [str] *)
Definition repr_list (l : list str) : str :=
  lit "[" ++ join (lit ", ") (map repr_str l) ++ lit "]".

End Py.

Import Py.

(** ** Data model *)

(** A value of the parsed frontmatter: [data[key]] is a [str] or a list
    of [str]. *)
Inductive yaml_value : Type :=
  | Scalar (s : str)
  | Sequence (l : list str).

(** One element of [authors]: the dict [{'name': ...}] with the optional
    keys ['institution'] and ['orcid'], inserted in that order. *)
Record author : Type := mkAuthor {
  name : str;
  institution : option yaml_value;
  orcid : option str
}.

(** A value of the converter's result: a value of the parsed block, or
    the list of author dicts. *)
Inductive entry : Type :=
  | Field (v : yaml_value)
  | AuthorList (l : list author).

Inductive exn : Type := AttributeError | TypeError.

Inductive result (A : Type) : Type :=
  | Ok (a : A)
  | Raise (e : exn).
Arguments Raise {A} e.

Definition bind {A B} (r : result A) (f : A -> result B) : result B :=
  match r with
  | Ok a => f a
  | Raise e => Raise e
  end.

Notation "x <- r ;; k" := (bind r (fun x => k))
  (at level 61, r at next level, right associativity).

(** *** Dictionaries *)

Definition dict (V : Type) := list (str * V).

(** [d.get(k)] *)
Fixpoint dict_get {V} (k : str) (d : dict V) : option V :=
  match d with
  | [] => None
  | (k', v) :: d' => if str_eqb k' k then Some v else dict_get k d'
  end.

(** [k in d] *)
Definition dict_mem {V} (k : str) (d : dict V) : bool :=
  match dict_get k d with
  | Some _ => true
  | None => false
  end.

(** [d.get(k, default)] *)
Definition dict_get_default {V} (k : str) (default : V) (d : dict V) : V :=
  match dict_get k d with
  | Some v => v
  | None => default
  end.

(** [d[k] = v] *)
Fixpoint dict_set {V} (k : str) (v : V) (d : dict V) : dict V :=
  match d with
  | [] => [(k, v)]
  | (k', v') :: d' =>
      if str_eqb k' k then (k', v) :: d' else (k', v') :: dict_set k v d'
  end.

Definition keys {V} (d : dict V) : list str := map fst d.

Definition is_empty {A} (l : list A) : bool :=
  match l with
  | [] => true
  | _ :: _ => false
  end.

(** Python truth value of a [str] or a list *)
Definition truthy (v : yaml_value) : bool :=
  match v with
  | Scalar s => negb (is_empty s)
  | Sequence l => negb (is_empty l)
  end.

(** ** Frontmatter Reader: [parse_yaml_frontmatter] *)

(** The loop state.  [current_list] is [None] or refers to the list object
    stored in [data] under the key that introduced it; appending to it
    updates that entry of [data].  ([current_key] is assigned but never
    read in the source.) *)
Record reader_state : Type := mkState {
  data : dict yaml_value;
  current_list : option str
}.

Definition init_state : reader_state :=
  {| data := []; current_list := None |}.

(** [if current_list is not None: current_list.append(item)] *)
Definition list_append (st : reader_state) (item : str) : reader_state :=
  match current_list st with
  | None => st
  | Some k =>
      match dict_get k (data st) with
      | Some (Sequence l) =>
          {| data := dict_set k (Sequence (l ++ [item])) (data st);
             current_list := Some k |}
      | _ => st
      end
  end.

(** Remove quotes if present *)
Definition unquote (value : str) : str :=
  if startswith [DQUOTE] value && endswith [DQUOTE] value
  then slice_1_m1 value
  else if startswith [SQUOTE] value && endswith [SQUOTE] value
  then slice_1_m1 value
  else value.

Definition COLON : ascii := ":"%char.

(** The body of [for line in yaml_str.split('\n')] *)
Definition parse_line (st : reader_state) (line : str) : reader_state :=
  if is_empty (strip line) then st
  else if startswith (lit "  - ") line
  then list_append st (strip (skipn 4 line))
  else if startswith (lit "- ") line
  then list_append st (strip (skipn 2 line))
  else if contains [COLON] line then
    let (key, value) := partition COLON line in
    let key := strip key in
    let value := unquote (strip value) in
    if is_empty value
    then {| data := dict_set key (Sequence []) (data st);
            current_list := Some key |}
    else {| data := dict_set key (Scalar value) (data st);
            current_list := None |}
  else st.

Definition parse_lines (lines : list str) : reader_state :=
  fold_left parse_line lines init_state.

Definition OPEN_DELIM : str := lit "---" ++ [LF].
Definition CLOSE_DELIM : str := LF :: lit "---".

(** [re.match(r'^---\n(.*?)\n---', content, re.DOTALL)], then the line
    loop.  The first component is [None] when there is no frontmatter. *)
Definition parse_yaml_frontmatter (content : str)
  : option (dict yaml_value) * str :=
  if startswith OPEN_DELIM content then
    match lazy_until CLOSE_DELIM (skipn (length OPEN_DELIM) content) with
    | Some (yaml_str, remainder) =>
        (Some (data (parse_lines (split [LF] yaml_str))), remainder)
    | None => (None, content)
    end
  else (None, content).

(** ** Schema Converter: [convert_to_multiauthor] *)

(** The alternatives of [, (?:Jr\.|Sr\.|III|IV|PhD|MD)] *)
Definition SUFFIX_GUARD : list str :=
  [lit ", Jr."; lit ", Sr."; lit ", III"; lit ", IV"; lit ", PhD";
   lit ", MD"].

(** The alternatives of [https?://orcid\.org/]; the greedy [s?] tries the
    longer one first. *)
Definition ORCID_URL : list str :=
  [lit "https://orcid.org/"; lit "http://orcid.org/"].

(** [re.match(r'^\d{4}-\d{4}-\d{4}-\d{4}[X]?$', s)] *)
Definition orcid_re (s : str) : bool :=
  match
    obind (re_digits 4 s) (fun s =>
    obind (re_char "-" s) (fun s =>
    obind (re_digits 4 s) (fun s =>
    obind (re_char "-" s) (fun s =>
    obind (re_digits 4 s) (fun s =>
    obind (re_char "-" s) (fun s =>
    re_digits 4 s))))))
  with
  | Some rest =>
      match re_char "X" rest with
      | Some rest' => re_dollar rest'
      | None => re_dollar rest
      end
  | None => false
  end.

(** Parse author names (a [str] value of [author]) *)
Definition author_names (author_str : str) : list str :=
  if contains (lit " and ") author_str
  then map strip (split (lit " and ") author_str)
  else if contains (lit ", ") author_str
          && negb (re_search_any SUFFIX_GUARD author_str)
  then map strip (split (lit ", ") author_str)
  else [strip author_str].

(** The same statements when [data['author']] is a list: [in] is list
    membership, and the first method call or [re.search] raises. *)
Definition author_names_of_list (l : list str) : result (list str) :=
  if existsb (str_eqb (lit " and ")) l then Raise AttributeError
  else if existsb (str_eqb (lit ", ")) l then Raise TypeError
  else Raise AttributeError.

(** Parse ORCIDs (a [str] value of [ORCID], or the default ['']) *)
Definition orcids (orcid_str : str) : list str :=
  if is_empty orcid_str then []
  else
    let orcid_str := re_sub_empty ORCID_URL orcid_str in
    if contains (lit " and ") orcid_str
    then map strip (split (lit " and ") orcid_str)
    else if contains (lit ";") orcid_str
    then map (fun o => rstrip_char ";" (strip o))
             (filter (fun o => negb (is_empty (strip o)))
                     (split (lit ";") orcid_str))
    else if contains (lit ",") orcid_str
    then map strip (split (lit ",") orcid_str)
    else [strip orcid_str].

(** The body of [for i, name in enumerate(author_names)] *)
Definition build_author (inst : yaml_value) (ids : list str)
  (i : nat) (nm : str) : author :=
  {| name := nm;
     institution := if (i =? 0) && truthy inst then Some inst else None;
     orcid :=
       match nth_error ids i with
       | Some o =>
           if negb (is_empty o) && orcid_re (strip o)
           then Some (strip o) else None
       | None => None
       end |}.

Definition build_authors (inst : yaml_value) (ids names : list str)
  : list author :=
  map (fun p => build_author inst ids (fst p) (snd p))
      (combine (seq 0 (length names)) names).

Definition COPIED_KEYS : list str :=
  [lit "year"; lit "funder"; lit "program"; lit "discipline";
   lit "status"; lit "link"; lit "link_name"].

(** [if key in data and data[key]: new_data[key] = data[key]] *)
Definition copy_key (d : dict yaml_value) (new_data : dict entry)
  (key : str) : dict entry :=
  match dict_get key d with
  | Some v => if truthy v then dict_set key (Field v) new_data else new_data
  | None => new_data
  end.

(** [return data, False]: the same block, as a block of entries *)
Definition unchanged (d : dict yaml_value) : dict entry :=
  map (fun kv => (fst kv, Field (snd kv))) d.

(** [author_names] for either shape of [data['author']] *)
Definition parse_names (author_val : yaml_value) : result (list str) :=
  match author_val with
  | Scalar author_str => Ok (author_names author_str)
  | Sequence l => author_names_of_list l
  end.

(** [orcids] for either shape of [data.get('ORCID', '')]: an empty list
    is false like [''], and [re.sub] raises on a non-empty list. *)
Definition parse_orcids (orcid_val : yaml_value) : result (list str) :=
  match orcid_val with
  | Scalar orcid_str => Ok (orcids orcid_str)
  | Sequence [] => Ok []
  | Sequence (_ :: _) => Raise TypeError
  end.

(** Create new data structure, copy other fields *)
Definition new_record (d : dict yaml_value) (authors : list author)
  : dict entry :=
  let new_data :=
    [(lit "layout",
      Field (dict_get_default (lit "layout") (Scalar (lit "grant")) d))] in
  let new_data :=
    dict_set (lit "title")
      (Field (dict_get_default (lit "title") (Scalar []) d)) new_data in
  let new_data := dict_set (lit "authors") (AuthorList authors) new_data in
  fold_left (copy_key d) COPIED_KEYS new_data.

Definition convert_to_multiauthor (d : dict yaml_value)
  : result (dict entry * bool) :=
  if dict_mem (lit "authors") d then Ok (unchanged d, false)
  else
    match dict_get (lit "author") d with
    | None => Ok (unchanged d, false)
    | Some author_val =>
        let orcid_val := dict_get_default (lit "ORCID") (Scalar []) d in
        let inst := dict_get_default (lit "institution") (Scalar []) d in
        names <- parse_names author_val ;;
        ids <- parse_orcids orcid_val ;;
        Ok (new_record d (build_authors inst ids names), true)
    end.

(** ** Frontmatter Writer: [format_yaml_value], [write_yaml_frontmatter] *)

Definition HASH : ascii := "#"%char.

(** [value.replace(c, '\\' + c)] *)
Definition escape_char (c : ascii) (s : str) : str :=
  flat_map (fun x => if Ascii.eqb x c then [BACKSLASH; x] else [x]) s.

Definition format_str (value : str) : str :=
  if contains [COLON] value || contains [HASH] value
     || startswith [DQUOTE] value || contains [LF] value
  then DQUOTE :: escape_char DQUOTE (escape_char BACKSLASH value) ++ [DQUOTE]
  else value.

(** [format_yaml_value]: a [str] is quoted when needed, a list is returned
    as it is. *)
Definition format_yaml_value (value : yaml_value) : yaml_value :=
  match value with
  | Scalar s => Scalar (format_str s)
  | Sequence l => Sequence l
  end.

(** [repr] of a value, and a value placed in an f-string *)
Definition repr_value (v : yaml_value) : str :=
  match v with
  | Scalar s => repr_str s
  | Sequence l => repr_list l
  end.

Definition fstring (v : yaml_value) : str :=
  match v with
  | Scalar s => s
  | Sequence l => repr_list l
  end.

(** [str(author)] of an author dict *)
Definition repr_author (a : author) : str :=
  lit "{'name': " ++ repr_str (name a)
  ++ match institution a with
     | Some v => lit ", 'institution': " ++ repr_value v
     | None => []
     end
  ++ match orcid a with
     | Some o => lit ", 'orcid': " ++ repr_str o
     | None => []
     end
  ++ lit "}".

(** The lines of one author in the [authors] branch *)
Definition author_lines (a : author) : list str :=
  [lit "  - name: " ++ format_str (name a)]
  ++ match orcid a with
     | Some o => [lit "    orcid: " ++ o]
     | None => []
     end
  ++ match institution a with
     | Some v => [lit "    institution: " ++ fstring (format_yaml_value v)]
     | None => []
     end.

(** The lines of one [key, value] of [data.items()].  Under the key
    [authors] every element is indexed by ['name'], which raises on a
    [str] element (or a character of a [str]). *)
Definition entry_lines (key : str) (value : entry) : result (list str) :=
  if str_eqb key (lit "authors") then
    match value with
    | AuthorList l => Ok (lit "authors:" :: flat_map author_lines l)
    | Field (Scalar []) | Field (Sequence []) => Ok [lit "authors:"]
    | Field _ => Raise TypeError
    end
  else
    match value with
    | Field (Sequence l) =>
        Ok ((key ++ [COLON])
              :: map (fun item => lit "  - " ++ format_str item) l)
    | AuthorList l =>
        Ok ((key ++ [COLON])
              :: map (fun item => lit "  - " ++ repr_author item) l)
    | Field (Scalar s) => Ok [key ++ lit ": " ++ format_str s]
    end.

Fixpoint block_lines (d : dict entry) : result (list str) :=
  match d with
  | [] => Ok []
  | (key, value) :: d' =>
      ls <- entry_lines key value ;;
      rest <- block_lines d' ;;
      Ok (ls ++ rest)
  end.

Definition write_yaml_frontmatter (d : dict entry) (remainder : str)
  : result str :=
  ls <- block_lines d ;;
  Ok (join [LF] ([lit "---"] ++ ls ++ [lit "---"]) ++ remainder).

(** ** [migrate_file] without its input and output: the new content of
    the file, or [None] when the file is skipped. *)
Definition migrate_file (content : str) : result (option str) :=
  match parse_yaml_frontmatter content with
  | (None, _) => Ok None
  | (Some d, remainder) =>
      r <- convert_to_multiauthor d ;;
      let (new_data, changed) := r in
      if negb changed then Ok None
      else
        new_content <- write_yaml_frontmatter new_data remainder ;;
        Ok (Some new_content)
  end.

(** ** The specification's reading of "begins with a frontmatter block"

    Follows the words of the specification (not the source): the first line
    is [---], a body of at least one line follows, and a line after it is
    the closing line [---]. *)
Definition begins_with_block_spec (content : str) : bool :=
  match split [LF] content with
  | first :: _ :: later =>
      str_eqb first (lit "---") && existsb (str_eqb (lit "---")) later
  | _ => false
  end.

(** The entry that the copy loop adds for [key], if any *)
Definition copied_entry (d : dict yaml_value) (key : str) : dict entry :=
  match dict_get key d with
  | Some v => if truthy v then [(key, Field v)] else []
  | None => []
  end.

(** ** Example inputs *)

(** The block of a conversion's result (empty when it raises) *)
Definition converted (d : dict yaml_value) : dict entry :=
  match convert_to_multiauthor d with
  | Ok (new_data, _) => new_data
  | Raise _ => []
  end.

(** The block that the reader finds (empty when there is none) *)
Definition parsed (content : str) : dict yaml_value :=
  match fst (parse_yaml_frontmatter content) with
  | Some d => d
  | None => []
  end.

Definition lines_text (ls : list str) : str := join [LF] ls.



Definition ex_pair : dict yaml_value :=
  [(lit "author", Scalar (lit "A and B"));
   (lit "ORCID", Scalar (lit "not-an-id and 0000-0002-3456-7890"));
   (lit "institution", Scalar (lit "Acme U"));
   (lit "year", Scalar (lit "2020"));
   (lit "tags", Sequence [lit "x"])].

(** A legacy document, with a body after the frontmatter *)
Definition ex_document : str :=
  lines_text
    [lit "---"; lit "layout: grant"; lit "title: A study";
     lit "author: Jane Doe and John Smith";
     lit "ORCID: 0000-0001-2345-6789 and 0000-0002-3456-7890";
     lit "institution: Acme U"; lit "year: 2020"; lit "---";
     lit "Body text."; lit ""].

(** [author:] with list items under it *)
Definition ex_author_list : str :=
  lines_text [lit "---"; lit "author:"; lit "  - Jane Doe"; lit "---"; lit ""].

(** Two adjacent separators in [author] *)
Definition ex_blank_name : str :=
  lines_text [lit "---"; lit "author: a and  and b"; lit "---"; lit ""].

(** The closing dashes are the start of a longer line *)
Definition ex_long_closing_line : str :=
  lines_text [lit "---"; lit "title: T"; lit "---x"; lit "body"].

(** ** Texts without a newline

    The reader splits the frontmatter into lines, so no value it stores
    contains a newline; the writer then emits one line per value. *)

Definition not_lf (c : ascii) : Prop := c <> LF.

Definition nolf (s : str) : Prop := Forall not_lf s.

Definition nolf_value (v : yaml_value) : Prop :=
  match v with
  | Scalar s => nolf s
  | Sequence l => Forall nolf l
  end.

Definition nolf_block (d : dict yaml_value) : Prop :=
  Forall (fun kv => nolf_value (snd kv)) d.

Definition nolf_author (a : author) : Prop :=
  nolf (name a)
  /\ (forall o, orcid a = Some o -> nolf o)
  /\ (forall v, institution a = Some v -> nolf_value v).

(** A line that cannot be taken for the closing delimiter *)
Definition plain_line (l : str) : Prop :=
  nolf l /\ startswith (lit "-") l = false.

(** A key of the new block other than [authors] *)
Definition plain_key (k : str) : Prop :=
  nolf k /\ startswith (lit "-") k = false /\ k <> []
  /\ str_eqb k (lit "authors") = false.

(** ** The shape of an ORCID identifier

    Four groups of four digits separated by dashes, with an optional
    final X. *)

Definition four_digits (g : str) : Prop :=
  length g = 4 /\ forallb isdigit g = true.

Definition orcid_shape (o : str) : Prop :=
  exists g1 g2 g3 g4 x,
    o = g1 ++ lit "-" ++ g2 ++ lit "-" ++ g3 ++ lit "-" ++ g4 ++ x
    /\ four_digits g1 /\ four_digits g2 /\ four_digits g3
    /\ four_digits g4 /\ (x = [] \/ x = lit "X").

(** The reader's [current_list], when not [None], is the list stored in
    [data] under its key. *)
Definition alias_ok (st : reader_state) : Prop :=
  match current_list st with
  | Some k => exists l, dict_get k (data st) = Some (Sequence l)
  | None => True
  end.

(** A trimmed text has no whitespace at either end. *)
Definition trimmed (s : str) : Prop := lstrip s = s /\ rstrip s = s.

(** ** Blocks that the reader returns *)

(** A key of the reader: trimmed, and without a colon *)
Definition reader_key (k : str) : Prop := trimmed k /\ ~ In COLON k.

(** A value of the reader: a scalar is not empty, and every list item is
    trimmed. *)
Definition reader_value (v : yaml_value) : Prop :=
  match v with
  | Scalar s => s <> []
  | Sequence l => Forall trimmed l
  end.

Definition reader_entry (kv : str * yaml_value) : Prop :=
  reader_key (fst kv) /\ reader_value (snd kv).

Definition reader_block (d : dict yaml_value) : Prop :=
  NoDup (keys d) /\ Forall reader_entry d.

(** ** The keys that the converter reads *)
Definition READ_KEYS : list str :=
  [lit "authors"; lit "author"; lit "ORCID"; lit "institution";
   lit "layout"; lit "title"] ++ COPIED_KEYS.

(** [ex_pair] in another order, with one more key *)
Definition ex_pair_shuffled : dict yaml_value :=
  [(lit "note", Scalar (lit "internal"));
   (lit "tags", Sequence [lit "y"; lit "z"]);
   (lit "year", Scalar (lit "2020"));
   (lit "institution", Scalar (lit "Acme U"));
   (lit "ORCID", Scalar (lit "not-an-id and 0000-0002-3456-7890"));
   (lit "author", Scalar (lit "A and B"))].

(** ** Blocks that survive writing and reading

    The condition of [format_yaml_value] for quoting a string *)
Definition needs_quoting (value : str) : bool :=
  contains [COLON] value || contains [HASH] value
  || startswith [DQUOTE] value || contains [LF] value.

(** A scalar that is read back as it was written: not empty and on one
    line; when it is written in quotes it has no backslash and no double
    quote (the reader does not undo the escaping); when it is written bare
    it is trimmed and not itself wrapped in quotes. *)
Definition roundtrip_scalar (v : str) : Prop :=
  v <> [] /\ nolf v
  /\ if needs_quoting v
     then ~ In BACKSLASH v /\ ~ In DQUOTE v
     else trimmed v /\ unquote v = v.

(** A list item that is read back as it was written: the reader does not
    remove quotes from list items, so the item is one that is written
    bare. *)
Definition roundtrip_item (item : str) : Prop :=
  nolf item /\ trimmed item /\ needs_quoting item = false.

Definition roundtrip_value (v : yaml_value) : Prop :=
  match v with
  | Scalar s => roundtrip_scalar s
  | Sequence l => Forall roundtrip_item l
  end.

Definition roundtrip_key (k : str) : Prop :=
  trimmed k /\ ~ In COLON k /\ nolf k
  /\ startswith (lit "-") k = false /\ k <> lit "authors".

Definition roundtrip_entry (kv : str * yaml_value) : Prop :=
  roundtrip_key (fst kv) /\ roundtrip_value (snd kv).

(** Assigning the entries of [d] one after the other *)
Definition store (d acc : dict yaml_value) : dict yaml_value :=
  fold_left (fun a kv => dict_set (fst kv) (snd kv) a) d acc.

(** A legacy block with a quoted title and a list *)
Definition ex_legacy_block : dict yaml_value :=
  [(lit "layout", Scalar (lit "grant"));
   (lit "title", Scalar (lit "Soil: a study"));
   (lit "author", Scalar (lit "Jane Doe"));
   (lit "tags", Sequence [lit "soil"; lit "carbon"])].

(** ** [migrate_file] on a file, and the loop of [main]

    A file is its name and its content.  [migrate_file(filepath, dry_run)]
    returns whether the file is (or would be) migrated; the content of the
    file after the call is the new content when it is migrated and
    [dry_run] is false, and the old content otherwise. *)
Definition migrate_file_at (dry_run : bool) (content : str)
  : result (bool * str) :=
  r <- migrate_file content ;;
  match r with
  | None => Ok (false, content)
  | Some new_content => Ok (true, if dry_run then content else new_content)
  end.

(** The loop [for filepath in sorted(grants_dir.glob('*.md'))] of [main],
    over the files that the sorted glob yields.  The result is the files
    after the loop, and the counters [migrated] and [skipped], or the
    exception that stopped the loop: nothing catches it, and the files
    written before it stay written. *)
Fixpoint main_loop (dry_run : bool) (files : list (str * str))
  (migrated skipped : nat) : list (str * str) * result (nat * nat) :=
  match files with
  | [] => ([], Ok (migrated, skipped))
  | (name, content) :: rest =>
      if startswith (lit "test_") name then
        let (rest', r) := main_loop dry_run rest migrated (S skipped) in
        ((name, content) :: rest', r)
      else
        match migrate_file_at dry_run content with
        | Raise e => ((name, content) :: rest, Raise e)
        | Ok (true, content') =>
            let (rest', r) := main_loop dry_run rest (S migrated) skipped in
            ((name, content') :: rest', r)
        | Ok (false, content') =>
            let (rest', r) := main_loop dry_run rest migrated (S skipped) in
            ((name, content') :: rest', r)
        end
  end.

(** A directory of three files: a legacy grant, a test file and a file
    without frontmatter *)
Definition ex_directory : list (str * str) :=
  [(lit "a-grant.md", ex_document);
   (lit "test_grant.md", ex_document);
   (lit "z-notes.md", lit "No frontmatter here.")].

(** A title that is written in quotes and holds a double quote *)
Definition ex_quoted_title : str :=
  lit "Soil: the " ++ [DQUOTE] ++ lit "dark" ++ [DQUOTE] ++ lit " matter".

(** The block that the reader returns for a migrated file with one
    author: the item line of the author is a list item of [authors]. *)
Definition ex_reread_block : dict yaml_value :=
  [(lit "layout", Scalar (lit "grant"));
   (lit "authors", Sequence [lit "name: Jane Doe"])].

(** * Properties *)

(** ** Strings *)

Lemma str_eqb_eq (a b : str) : str_eqb a b = true <-> a = b.
Proof.
  revert b; induction a as [|x a IH]; intros [|y b]; simpl;
    try (split; [discriminate | discriminate]); try tauto.
  rewrite andb_true_iff, Ascii.eqb_eq, IH.
  split; [intros [-> ->]; reflexivity | intros H; inversion H; auto].
Qed.

Lemma str_eqb_refl (a : str) : str_eqb a a = true.
Proof. apply str_eqb_eq; reflexivity. Qed.

Lemma str_eqb_neq (a b : str) : str_eqb a b = false <-> a <> b.
Proof.
  rewrite <- str_eqb_eq. destruct (str_eqb a b); split; congruence.
Qed.

Lemma startswith_app (p r : str) : startswith p (p ++ r) = true.
Proof.
  induction p as [|x p IH]; simpl; [reflexivity|].
  now rewrite Ascii.eqb_refl, IH.
Qed.

Lemma startswith_inv (p s : str) :
  startswith p s = true -> exists r, s = p ++ r.
Proof.
  revert s; induction p as [|x p IH]; intros s H.
  - exists s; reflexivity.
  - destruct s as [|y s]; simpl in H; [discriminate|].
    apply andb_true_iff in H as [Hxy Hp].
    apply Ascii.eqb_eq in Hxy; subst y.
    destruct (IH _ Hp) as [r ->]. exists r; reflexivity.
Qed.

Lemma startswith_iff (p s : str) :
  startswith p s = true <-> exists r, s = p ++ r.
Proof.
  split; [apply startswith_inv | intros [r ->]; apply startswith_app].
Qed.

Lemma skipn_length_app (p r : str) : skipn (length p) (p ++ r) = r.
Proof. induction p; simpl; auto. Qed.

Lemma startswith_skipn (p s : str) :
  startswith p s = true -> s = p ++ skipn (length p) s.
Proof.
  intros H. apply startswith_inv in H as [r ->].
  now rewrite skipn_length_app.
Qed.

Lemma contains_unfold (sub s : str) :
  contains sub s
  = startswith sub s
    || match s with [] => false | _ :: s' => contains sub s' end.
Proof. destruct s; reflexivity. Qed.

Lemma contains_iff (sub s : str) :
  contains sub s = true <-> exists a b, s = a ++ sub ++ b.
Proof.
  induction s as [|c s IH]; rewrite contains_unfold, orb_true_iff.
  - split.
    + intros [H|H]; [|discriminate].
      apply startswith_inv in H as [r ->]. exists [], r; reflexivity.
    + intros (a & b & H). left.
      destruct a; [|discriminate]. simpl in H. rewrite H.
      apply startswith_app.
  - rewrite IH. split.
    + intros [H|(a & b & ->)].
      * apply startswith_inv in H as [r ->]. exists [], r; reflexivity.
      * exists (c :: a), b; reflexivity.
    + intros (a & b & H). destruct a as [|x a]; simpl in H.
      * left. rewrite H. apply startswith_app.
      * right. inversion H; subst. exists a, b; reflexivity.
Qed.

Lemma contains_single (c : ascii) (s : str) :
  contains [c] s = true <-> In c s.
Proof.
  rewrite contains_iff. split.
  - intros (a & b & ->). apply in_or_app; right; left; reflexivity.
  - intros H. apply in_split in H as (a & b & ->). exists a, b; reflexivity.
Qed.

Lemma lazy_until_unfold (close s : str) :
  lazy_until close s
  = if startswith close s then Some ([], skipn (length close) s)
    else match s with
         | [] => None
         | c :: s' =>
             match lazy_until close s' with
             | Some (g, rest) => Some (c :: g, rest)
             | None => None
             end
         end.
Proof. destruct s; reflexivity. Qed.

(** A successful lazy match splits the text at an occurrence of [close]. *)
Lemma lazy_until_some (close s g rest : str) :
  lazy_until close s = Some (g, rest) -> s = g ++ close ++ rest.
Proof.
  revert g rest; induction s as [|c s IH]; intros g rest;
    rewrite lazy_until_unfold; destruct (startswith close _) eqn:E;
    try discriminate.
  - intros H; inversion H; subst; clear H. now apply startswith_skipn.
  - intros H; inversion H; subst; clear H. now apply startswith_skipn.
  - destruct (lazy_until close s) as [[g' rest']|]; [|discriminate].
    intros H; inversion H; subst; clear H.
    rewrite (IH g' rest eq_refl). reflexivity.
Qed.

(** ... and that occurrence is the first one. *)
Lemma lazy_until_shortest (close s g rest : str) :
  lazy_until close s = Some (g, rest) ->
  forall g' rest', s = g' ++ close ++ rest' -> length g <= length g'.
Proof.
  revert g rest; induction s as [|c s IH]; intros g rest;
    rewrite lazy_until_unfold; destruct (startswith close _) eqn:E;
    try discriminate.
  - intros H; inversion H; subst; simpl; intros; lia.
  - intros H; inversion H; subst; simpl; intros; lia.
  - destruct (lazy_until close s) as [[g0 rest0]|]; [|discriminate].
    intros H; inversion H; subst; clear H.
    intros g' rest' Hs. destruct g' as [|x g']; simpl in Hs.
    + rewrite Hs, startswith_app in E. discriminate.
    + inversion Hs; subst. simpl.
      specialize (IH g0 rest eq_refl g' rest' eq_refl). lia.
Qed.

Lemma lazy_until_none (close s : str) :
  lazy_until close s = None <-> contains close s = false.
Proof.
  induction s as [|c s IH]; rewrite lazy_until_unfold, contains_unfold;
    destruct (startswith close _); simpl; try (split; congruence).
  rewrite <- IH. destruct (lazy_until close s) as [[? ?]|];
    split; congruence.
Qed.

(** *** [split] and [join] *)

Lemma split_go_nonempty (sep : str) (k : nat) (s : str) :
  split_go sep k s <> [].
Proof.
  revert k; induction s as [|c s IH]; intros k; simpl; [discriminate|].
  destruct k; [|apply IH].
  destruct (startswith sep (c :: s)); [discriminate|].
  specialize (IH 0). destruct (split_go sep 0 s); simpl; congruence.
Qed.

Lemma join_cons (sep p : str) (ps : list str) :
  ps <> [] -> join sep (p :: ps) = p ++ sep ++ join sep ps.
Proof. destruct ps; [congruence | reflexivity]. Qed.

Lemma join_cons_head (sep : str) (c : ascii) (ps : list str) :
  ps <> [] -> join sep (cons_head c ps) = c :: join sep ps.
Proof.
  destruct ps as [|p [|q ps]]; simpl; congruence.
Qed.

(** Joining the pieces with the separator gives the text back. *)
Lemma join_split_go (sep : str) (k : nat) (s : str) :
  sep <> [] -> join sep (split_go sep k s) = skipn k s.
Proof.
  intros Hsep. revert k; induction s as [|c s IH]; intros k.
  - destruct k; reflexivity.
  - simpl. destruct k as [|k]; [|apply IH].
    destruct (startswith sep (c :: s)) eqn:E.
    + rewrite join_cons by apply split_go_nonempty.
      rewrite IH. simpl.
      apply startswith_inv in E as [r E].
      destruct sep as [|x sep]; [congruence|].
      simpl in E. inversion E; subst. simpl.
      now rewrite Nat.sub_0_r, skipn_length_app.
    + rewrite join_cons_head by apply split_go_nonempty.
      now rewrite IH.
Qed.

Lemma join_split (sep s : str) : sep <> [] -> join sep (split sep s) = s.
Proof. intros H. unfold split. now rewrite join_split_go. Qed.

Lemma cons_head_chars (P : ascii -> Prop) (c : ascii) (ps : list str) :
  P c -> Forall (Forall P) ps -> Forall (Forall P) (cons_head c ps).
Proof.
  intros Hc Hps. destruct ps as [|p ps]; simpl.
  - repeat constructor; assumption.
  - inversion Hps; subst. constructor; [constructor|]; assumption.
Qed.

(** Every character of a piece is a character of the text. *)
Lemma split_go_chars (P : ascii -> Prop) (sep : str) (k : nat) (s : str) :
  Forall P s -> Forall (Forall P) (split_go sep k s).
Proof.
  intros Hs. revert k; induction Hs as [|c s Hc Hs IH]; intros k; simpl.
  - repeat constructor.
  - destruct k; [|apply IH].
    destruct (startswith sep (c :: s)).
    + constructor; [constructor | apply IH].
    + apply cons_head_chars; [assumption | apply IH].
Qed.

Lemma split_chars (P : ascii -> Prop) (sep s : str) :
  Forall P s -> Forall (Forall P) (split sep s).
Proof. apply split_go_chars. Qed.

Lemma split_single_cons (c x : ascii) (s : str) :
  split [c] (x :: s)
  = if Ascii.eqb c x then [] :: split [c] s else cons_head x (split [c] s).
Proof.
  unfold split; simpl. destruct (Ascii.eqb c x); reflexivity.
Qed.

(** A piece of a split on one character does not contain it. *)
Lemma split_single_no_sep (c : ascii) (s : str) :
  Forall (fun p => ~ In c p) (split [c] s).
Proof.
  induction s as [|x s IH].
  - repeat constructor. intros [].
  - rewrite split_single_cons. destruct (Ascii.eqb c x) eqn:E.
    + constructor; [intros [] | assumption].
    + apply Ascii.eqb_neq in E.
      destruct (split [c] s) as [|p ps]; simpl.
      * repeat constructor. intros [H|[]]; congruence.
      * inversion IH; subst. constructor; [|assumption].
        intros [H|H]; [congruence | contradiction].
Qed.

Lemma split_single_line (c : ascii) (l : str) :
  ~ In c l -> split [c] l = [l].
Proof.
  induction l as [|x l IH]; intros H; [reflexivity|].
  rewrite split_single_cons.
  destruct (Ascii.eqb_spec c x) as [->|_]; [exfalso; apply H; now left|].
  rewrite IH; [reflexivity | intros ?; apply H; now right].
Qed.

Lemma split_single_app (c : ascii) (l rest : str) :
  ~ In c l -> split [c] (l ++ c :: rest) = l :: split [c] rest.
Proof.
  induction l as [|x l IH]; intros H; simpl.
  - rewrite split_single_cons, Ascii.eqb_refl. reflexivity.
  - rewrite split_single_cons.
    destruct (Ascii.eqb_spec c x) as [->|_]; [exfalso; apply H; now left|].
    rewrite IH; [reflexivity | intros ?; apply H; now right].
Qed.

(** Splitting joined lines gives the lines back. *)
Lemma split_join_lines (c : ascii) (ls : list str) :
  ls <> [] -> Forall (fun l => ~ In c l) ls ->
  split [c] (join [c] ls) = ls.
Proof.
  induction ls as [|l ls IH]; intros Hne Hls; [congruence|].
  inversion Hls; subst. destruct ls as [|l' ls].
  - simpl. now apply split_single_line.
  - rewrite join_cons by discriminate.
    change ([c] ++ join [c] (l' :: ls)) with (c :: join [c] (l' :: ls)).
    rewrite split_single_app by assumption.
    rewrite IH; [reflexivity | discriminate | assumption].
Qed.

(** *** [strip] *)

Lemma drop_while_chars (P : ascii -> Prop) (p : ascii -> bool) (s : str) :
  Forall P s -> Forall P (drop_while p s).
Proof.
  induction 1 as [|c s Hc Hs IH]; simpl; [constructor|].
  destruct (p c); [assumption | now constructor].
Qed.

Lemma drop_while_idem (p : ascii -> bool) (s : str) :
  drop_while p (drop_while p s) = drop_while p s.
Proof.
  induction s as [|c s IH]; simpl; [reflexivity|].
  destruct (p c) eqn:E; [assumption | simpl; now rewrite E].
Qed.

Lemma drop_while_snoc (p : ascii -> bool) (s : str) (c : ascii) :
  p c = false -> drop_while p (s ++ [c]) = drop_while p s ++ [c].
Proof.
  intros Hc. induction s as [|x s IH]; simpl.
  - now rewrite Hc.
  - destruct (p x); [assumption | reflexivity].
Qed.

Lemma drop_while_nil_iff (p : ascii -> bool) (s : str) :
  drop_while p s = [] <-> forallb p s = true.
Proof.
  induction s as [|c s IH]; simpl; [tauto|].
  destruct (p c); simpl; [assumption | split; discriminate].
Qed.

Lemma drop_while_noop (p : ascii -> bool) (s : str) :
  Forall (fun x => p x = false) s -> drop_while p s = s.
Proof.
  destruct 1 as [|c s Hc Hs]; simpl; [reflexivity | now rewrite Hc].
Qed.

Lemma Forall_rev_str (P : ascii -> Prop) (s : str) :
  Forall P s -> Forall P (rev s).
Proof.
  rewrite !Forall_forall. intros H x Hx. apply H. now apply in_rev.
Qed.

Lemma strip_chars (P : ascii -> Prop) (s : str) :
  Forall P s -> Forall P (strip s).
Proof.
  intros H. unfold strip, rstrip, lstrip.
  now apply Forall_rev_str, drop_while_chars, Forall_rev_str,
    drop_while_chars.
Qed.

Lemma rstrip_char_chars (P : ascii -> Prop) (c : ascii) (s : str) :
  Forall P s -> Forall P (rstrip_char c s).
Proof.
  intros H. unfold rstrip_char.
  now apply Forall_rev_str, drop_while_chars, Forall_rev_str.
Qed.

Lemma strip_trimmed (s : str) : trimmed (strip s).
Proof.
  unfold trimmed, strip. split.
  - pose proof (drop_while_idem isspace s) as Hi. fold (lstrip s) in Hi.
    fold (lstrip (lstrip s)) in Hi.
    destruct (lstrip s) as [|c y] eqn:Ey; [reflexivity|].
    assert (Hc : isspace c = false).
    { unfold lstrip in Hi. simpl in Hi.
      destruct (isspace c) eqn:Ec; [|reflexivity].
      exfalso. apply (f_equal (@length ascii)) in Hi. simpl in Hi.
      assert (length (drop_while isspace y) <= length y).
      { clear. induction y as [|a y IH]; simpl; [lia|].
        destruct (isspace a); simpl; lia. }
      lia. }
    unfold rstrip. simpl rev. rewrite drop_while_snoc by assumption.
    rewrite rev_app_distr. simpl. unfold lstrip. simpl. now rewrite Hc.
  - unfold rstrip at 1. unfold rstrip at 1. rewrite rev_involutive.
    rewrite drop_while_idem. reflexivity.
Qed.

Lemma trimmed_strip (s : str) : trimmed s -> strip s = s.
Proof. intros [Hl Hr]. unfold strip. now rewrite Hl. Qed.

Lemma strip_idem (s : str) : strip (strip s) = strip s.
Proof. apply trimmed_strip, strip_trimmed. Qed.

(** The trimmed text is empty exactly when the text is blank. *)
Lemma strip_nil_iff (s : str) : strip s = [] <-> forallb isspace s = true.
Proof.
  unfold strip, rstrip. rewrite <- (drop_while_nil_iff isspace s).
  fold (lstrip s). split.
  - intros H. apply (f_equal (@rev ascii)) in H.
    rewrite rev_involutive in H. simpl in H.
    apply drop_while_nil_iff in H.
    rewrite forallb_forall in H.
    pose proof (drop_while_idem isspace s) as Hi. fold (lstrip s) in Hi.
    destruct (lstrip s) as [|c y]; [reflexivity|].
    simpl in Hi.
    rewrite (H c) in Hi by (apply in_rev; rewrite rev_involutive; now left).
    exfalso. apply (f_equal (@length ascii)) in Hi. simpl in Hi.
    assert (length (drop_while isspace y) <= length y).
    { clear. induction y as [|a y IH]; simpl; [lia|].
      destruct (isspace a); simpl; lia. }
    lia.
  - intros ->. reflexivity.
Qed.

Lemma rstrip_char_noop (c : ascii) (s : str) :
  ~ In c s -> rstrip_char c s = s.
Proof.
  intros H. unfold rstrip_char. rewrite drop_while_noop.
  - apply rev_involutive.
  - apply Forall_forall. intros x Hx. apply in_rev in Hx.
    apply Ascii.eqb_neq. congruence.
Qed.

(** ** Dictionaries *)

Lemma dict_get_In {V} (k : str) (v : V) (d : dict V) :
  dict_get k d = Some v -> In (k, v) d.
Proof.
  induction d as [|[k' v'] d IH]; simpl; [discriminate|].
  destruct (str_eqb k' k) eqn:E.
  - apply str_eqb_eq in E. intros H; inversion H; subst. now left.
  - intros H. right. now apply IH.
Qed.

Lemma dict_get_app {V} (k : str) (a b : dict V) :
  dict_get k (a ++ b)
  = match dict_get k a with Some v => Some v | None => dict_get k b end.
Proof.
  induction a as [|[k' v'] a IH]; simpl; [reflexivity|].
  destruct (str_eqb k' k); [reflexivity | assumption].
Qed.

Lemma dict_get_set_same {V} (k : str) (v : V) (d : dict V) :
  dict_get k (dict_set k v d) = Some v.
Proof.
  induction d as [|[k' v'] d IH]; simpl.
  - now rewrite str_eqb_refl.
  - destruct (str_eqb k' k) eqn:E; simpl; rewrite E; [reflexivity | assumption].
Qed.

Lemma dict_get_set_other {V} (k k' : str) (v : V) (d : dict V) :
  k <> k' -> dict_get k' (dict_set k v d) = dict_get k' d.
Proof.
  intros Hne. induction d as [|[k0 v0] d IH]; simpl.
  - apply str_eqb_neq in Hne. now rewrite Hne.
  - destruct (str_eqb k0 k) eqn:E; simpl.
    + apply str_eqb_eq in E; subst k0.
      apply str_eqb_neq in Hne. now rewrite Hne.
    + destruct (str_eqb k0 k'); [reflexivity | assumption].
Qed.

(** Assigning to an existing key never removes a key. *)
Lemma dict_mem_set_mono {V} (k k' : str) (v : V) (d : dict V) :
  dict_mem k' d = true -> dict_mem k' (dict_set k v d) = true.
Proof.
  unfold dict_mem. induction d as [|[k0 v0] d IH]; simpl; [discriminate|].
  destruct (str_eqb k0 k) eqn:E; simpl.
  - destruct (str_eqb k0 k'); auto.
  - destruct (str_eqb k0 k'); auto.
Qed.

(** Assigning to a new key appends it. *)
Lemma dict_set_fresh {V} (k : str) (v : V) (d : dict V) :
  dict_get k d = None -> dict_set k v d = d ++ [(k, v)].
Proof.
  induction d as [|[k' v'] d IH]; simpl; [reflexivity|].
  destruct (str_eqb k' k); [discriminate|].
  intros H. now rewrite IH.
Qed.

Lemma dict_set_values {V} (P : V -> Prop) (k : str) (v : V) (d : dict V) :
  P v -> Forall (fun kv => P (snd kv)) d ->
  Forall (fun kv => P (snd kv)) (dict_set k v d).
Proof.
  intros Hv. induction 1 as [|[k' v'] d Hkv Hd IH]; simpl.
  - repeat constructor; assumption.
  - destruct (str_eqb k' k); constructor; auto.
Qed.

(** ** The converter's result *)

Lemma copy_key_fresh (d : dict yaml_value) (nd : dict entry) (key : str) :
  dict_get key nd = None -> copy_key d nd key = nd ++ copied_entry d key.
Proof.
  intros H. unfold copy_key, copied_entry.
  destruct (dict_get key d) as [v|]; [|now rewrite app_nil_r].
  destruct (truthy v); [now apply dict_set_fresh | now rewrite app_nil_r].
Qed.

Lemma copied_entry_get (d : dict yaml_value) (k k' : str) :
  k <> k' -> dict_get k' (copied_entry d k) = None.
Proof.
  intros Hne. unfold copied_entry.
  destruct (dict_get k d) as [v|]; [|reflexivity].
  destruct (truthy v); [|reflexivity].
  simpl. apply str_eqb_neq in Hne. now rewrite Hne.
Qed.

Lemma fold_copy_fresh (d : dict yaml_value) (ks : list str) :
  NoDup ks ->
  forall nd, (forall k, In k ks -> dict_get k nd = None) ->
  fold_left (copy_key d) ks nd = nd ++ flat_map (copied_entry d) ks.
Proof.
  induction 1 as [|k ks Hk Hnd IH]; intros nd Hfresh; simpl.
  - now rewrite app_nil_r.
  - rewrite copy_key_fresh by (apply Hfresh; now left).
    rewrite IH.
    + now rewrite <- app_assoc.
    + intros k' Hk'. rewrite dict_get_app, Hfresh by now right.
      apply copied_entry_get. intros ->. contradiction.
Qed.

Ltac literal_cases H :=
  repeat (destruct H as [H|H]; [subst; try reflexivity; try discriminate|]);
  try contradiction.

Lemma COPIED_KEYS_NoDup : NoDup COPIED_KEYS.
Proof.
  unfold COPIED_KEYS.
  repeat (constructor; [intros H; cbv in H; literal_cases H|]).
  constructor.
Qed.

(** The new block, written out: [layout], [title], [authors], then the
    copied keys in their fixed order. *)
Lemma new_record_explicit (d : dict yaml_value) (authors : list author) :
  new_record d authors
  = [(lit "layout",
      Field (dict_get_default (lit "layout") (Scalar (lit "grant")) d));
     (lit "title", Field (dict_get_default (lit "title") (Scalar []) d));
     (lit "authors", AuthorList authors)]
    ++ flat_map (copied_entry d) COPIED_KEYS.
Proof.
  unfold new_record. rewrite fold_copy_fresh.
  - reflexivity.
  - apply COPIED_KEYS_NoDup.
  - intros k Hk. unfold COPIED_KEYS in Hk. simpl in Hk. literal_cases Hk.
Qed.

Lemma parse_names_ok (av : yaml_value) (names : list str) :
  parse_names av = Ok names ->
  exists author_str, av = Scalar author_str /\ names = author_names author_str.
Proof.
  destruct av as [s|l]; simpl.
  - intros H; inversion H. eauto.
  - unfold author_names_of_list.
    destruct (existsb _ l); [discriminate|].
    destruct (existsb _ l); discriminate.
Qed.

(** What a conversion that reports [changed = True] has done. *)
Lemma convert_changed (d : dict yaml_value) (new : dict entry) :
  convert_to_multiauthor d = Ok (new, true) ->
  dict_mem (lit "authors") d = false
  /\ exists author_str ids,
      dict_get (lit "author") d = Some (Scalar author_str)
      /\ parse_orcids (dict_get_default (lit "ORCID") (Scalar []) d) = Ok ids
      /\ new = new_record d
                 (build_authors
                    (dict_get_default (lit "institution") (Scalar []) d)
                    ids (author_names author_str)).
Proof.
  unfold convert_to_multiauthor.
  destruct (dict_mem (lit "authors") d); [discriminate|].
  destruct (dict_get (lit "author") d) as [av|]; [|discriminate].
  destruct (parse_names av) as [names|e] eqn:En; [|discriminate].
  destruct (parse_orcids _) as [ids|e] eqn:Ei; [|discriminate].
  simpl. intros H; inversion H; subst; clear H.
  apply parse_names_ok in En as (s & -> & ->).
  split; [reflexivity|]. exists s, ids. auto.
Qed.

Lemma new_record_authors (d : dict yaml_value) (authors : list author) :
  dict_get (lit "authors") (new_record d authors) = Some (AuthorList authors).
Proof. rewrite new_record_explicit. reflexivity. Qed.

(** ** Author assembly *)

Lemma enumerate_nth {A B} (f : nat * A -> B) (l : list A) :
  forall start i,
    nth_error (map f (combine (seq start (length l)) l)) i
    = option_map (fun x => f (start + i, x)) (nth_error l i).
Proof.
  induction l as [|x l IH]; intros start i; simpl.
  - destruct i; reflexivity.
  - destruct i as [|i]; simpl.
    + now rewrite Nat.add_0_r.
    + rewrite IH. now rewrite Nat.add_succ_r.
Qed.

Lemma build_authors_nth (inst : yaml_value) (ids names : list str) (i : nat) :
  nth_error (build_authors inst ids names) i
  = option_map (build_author inst ids i) (nth_error names i).
Proof. unfold build_authors. now rewrite enumerate_nth. Qed.

Lemma build_authors_length (inst : yaml_value) (ids names : list str) :
  length (build_authors inst ids names) = length names.
Proof.
  unfold build_authors.
  now rewrite length_map, length_combine, length_seq, Nat.min_id.
Qed.

Lemma build_authors_names (inst : yaml_value) (ids names : list str) :
  map name (build_authors inst ids names) = names.
Proof.
  apply nth_error_ext. intros i.
  rewrite nth_error_map, build_authors_nth.
  destruct (nth_error names i); reflexivity.
Qed.

(** ** Name and ORCID splitting *)


Lemma semicolon_pieces (ps : list str) :
  Forall (fun p => ~ In ";"%char p) ps ->
  map (fun o => rstrip_char ";" (strip o))
      (filter (fun o => negb (is_empty (strip o))) ps)
  = filter (fun o => negb (is_empty o)) (map strip ps).
Proof.
  induction 1 as [|p ps Hp Hps IH]; simpl; [reflexivity|].
  destruct (is_empty (strip p)); simpl; [assumption|].
  rewrite IH. f_equal. apply rstrip_char_noop.
  assert (H : Forall (fun c => c <> ";"%char) (strip p)).
  { apply strip_chars. apply Forall_forall. intros c Hc ->. contradiction. }
  rewrite Forall_forall in H. intros Hin. now apply (H _ Hin).
Qed.

Lemma orcids_trimmed (orcid_str : str) : Forall trimmed (orcids orcid_str).
Proof.
  unfold orcids. destruct (is_empty orcid_str); [constructor|].
  set (s := re_sub_empty ORCID_URL orcid_str).
  destruct (contains (lit " and ") s).
  { apply Forall_forall; intros x Hx; apply in_map_iff in Hx;
      destruct Hx as (p & <- & _); apply strip_trimmed. }
  destruct (contains (lit ";") s).
  { rewrite semicolon_pieces by apply split_single_no_sep.
    apply Forall_forall; intros x Hx. apply filter_In in Hx as [Hx _].
    apply in_map_iff in Hx. destruct Hx as (p & <- & _). apply strip_trimmed. }
  destruct (contains (lit ",") s).
  { apply Forall_forall; intros x Hx; apply in_map_iff in Hx;
      destruct Hx as (p & <- & _); apply strip_trimmed. }
  constructor; [apply strip_trimmed | constructor].
Qed.

Lemma parse_orcids_trimmed (v : yaml_value) (ids : list str) :
  parse_orcids v = Ok ids -> Forall trimmed ids.
Proof.
  destruct v as [s|[|x l]]; simpl; intros H; inversion H; subst.
  - apply orcids_trimmed.
  - constructor.
Qed.



(** ** Name splitting *)



(** ** ORCID splitting *)



(** ** The ORCID pattern *)

Lemma re_digits_spec (n : nat) (s r : str) :
  re_digits n s = Some r
  <-> exists g, length g = n /\ forallb isdigit g = true /\ s = g ++ r.
Proof.
  revert s; induction n as [|n IH]; intros s; simpl.
  - split.
    + intros H; inversion H. exists []. auto.
    + intros (g & Hl & _ & ->). destruct g; [reflexivity | discriminate].
  - destruct s as [|c s].
    + split; [discriminate|]. intros (g & Hl & _ & H).
      destruct g; discriminate.
    + destruct (isdigit c) eqn:Ec.
      * rewrite IH. split.
        -- intros (g & Hl & Hd & ->). exists (c :: g). simpl.
           rewrite Ec, Hd. auto.
        -- intros (g & Hl & Hd & H). destruct g as [|x g]; [discriminate|].
           simpl in *. inversion H; subst.
           apply andb_true_iff in Hd as [_ Hd]. exists g. auto.
      * split; [discriminate|]. intros (g & Hl & Hd & H).
        destruct g as [|x g]; [discriminate|]. simpl in *.
        inversion H; subst. rewrite Ec in Hd. discriminate.
Qed.

Lemma re_char_spec (c : ascii) (s r : str) :
  re_char c s = Some r <-> s = c :: r.
Proof.
  unfold re_char. destruct s as [|x s]; [split; discriminate|].
  destruct (Ascii.eqb_spec x c) as [->|Hne].
  - split; intros H; inversion H; reflexivity.
  - split; [discriminate|]. intros H; inversion H; congruence.
Qed.

Lemma trimmed_no_final_lf (s : str) : trimmed (s ++ [LF]) -> False.
Proof.
  intros [_ H]. unfold rstrip in H. rewrite rev_app_distr in H.
  simpl in H. apply (f_equal (@length ascii)) in H.
  rewrite length_rev, length_app in H. simpl in H.
  assert (Hle : length (drop_while isspace (rev s)) <= length (rev s)).
  { generalize (rev s). clear. intros l.
    induction l as [|a l IH]; simpl; [lia|].
    destruct (isspace a); simpl; lia. }
  rewrite length_rev in Hle. lia.
Qed.

(** On a trimmed text the pattern matches exactly the ORCID shape. *)
Lemma orcid_re_shape (o : str) :
  trimmed o -> (orcid_re o = true <-> orcid_shape o).
Proof.
  intros Ht. unfold orcid_re, orcid_shape, obind. split.
  - destruct (re_digits 4 o) as [r1|] eqn:E1; [|discriminate].
    destruct (re_char "-" r1) as [r2|] eqn:E2; [|discriminate].
    destruct (re_digits 4 r2) as [r3|] eqn:E3; [|discriminate].
    destruct (re_char "-" r3) as [r4|] eqn:E4; [|discriminate].
    destruct (re_digits 4 r4) as [r5|] eqn:E5; [|discriminate].
    destruct (re_char "-" r5) as [r6|] eqn:E6; [|discriminate].
    destruct (re_digits 4 r6) as [r7|] eqn:E7; [|discriminate].
    apply re_digits_spec in E1 as (g1 & L1 & D1 & ->).
    apply re_char_spec in E2 as ->.
    apply re_digits_spec in E3 as (g2 & L2 & D2 & ->).
    apply re_char_spec in E4 as ->.
    apply re_digits_spec in E5 as (g3 & L3 & D3 & ->).
    apply re_char_spec in E6 as ->.
    apply re_digits_spec in E7 as (g4 & L4 & D4 & ->).
    intros Hend.
    assert (Hx : r7 = [] \/ r7 = lit "X").
    { destruct (re_char "X" r7) as [r8|] eqn:E8.
      - apply re_char_spec in E8 as ->.
        destruct r8 as [|c [|c' r8]]; simpl in Hend; try discriminate; auto.
        apply Ascii.eqb_eq in Hend; subst c. exfalso.
        apply (@trimmed_no_final_lf
                 (g1 ++ lit "-" ++ g2 ++ lit "-" ++ g3 ++ lit "-"
                     ++ g4 ++ lit "X")).
        repeat rewrite <- app_assoc. exact Ht.
      - destruct r7 as [|c [|c' r7]]; simpl in Hend; try discriminate; auto.
        apply Ascii.eqb_eq in Hend; subst c. exfalso.
        apply (@trimmed_no_final_lf
                 (g1 ++ lit "-" ++ g2 ++ lit "-" ++ g3 ++ lit "-" ++ g4)).
        repeat rewrite <- app_assoc. exact Ht. }
    exists g1, g2, g3, g4, r7. unfold four_digits. tauto.
  - intros (g1 & g2 & g3 & g4 & x & -> & (L1 & D1) & (L2 & D2) & (L3 & D3)
            & (L4 & D4) & Hx).
    assert (R : forall g r, length g = 4 -> forallb isdigit g = true ->
                            re_digits 4 (g ++ r) = Some r)
      by (intros g r Hl Hd; apply re_digits_spec; eauto).
    assert (C : forall t, re_char "-" (lit "-" ++ t) = Some t)
      by reflexivity.
    rewrite R by assumption. rewrite C.
    rewrite R by assumption. rewrite C.
    rewrite R by assumption. rewrite C.
    rewrite R by assumption.
    destruct Hx as [-> | ->]; reflexivity.
Qed.

(** ** The reader's current list *)

Lemma list_append_alias (st : reader_state) (item : str) :
  alias_ok st -> alias_ok (list_append st item).
Proof.
  unfold alias_ok, list_append.
  destruct (current_list st) as [k|] eqn:Ek; [|now rewrite Ek].
  intros (l & Hl). rewrite Hl. simpl.
  rewrite dict_get_set_same. eauto.
Qed.

(** Appending to [current_list] always finds its list in [data]. *)
Lemma parse_line_alias (st : reader_state) (line : str) :
  alias_ok st -> alias_ok (parse_line st line).
Proof.
  intros H. unfold parse_line.
  destruct (is_empty (strip line)); [assumption|].
  destruct (startswith (lit "  - ") line); [now apply list_append_alias|].
  destruct (startswith (lit "- ") line); [now apply list_append_alias|].
  destruct (contains [COLON] line); [|assumption].
  destruct (partition COLON line) as [key value].
  destruct (is_empty _); unfold alias_ok; simpl; [|exact I].
  rewrite dict_get_set_same. eauto.
Qed.

Lemma parse_lines_alias (lines : list str) : alias_ok (parse_lines lines).
Proof.
  unfold parse_lines.
  assert (H : forall st, alias_ok st ->
                         alias_ok (fold_left parse_line lines st)).
  { induction lines as [|l ls IH]; intros st Hst; simpl; [assumption|].
    apply IH. now apply parse_line_alias. }
  apply H. exact I.
Qed.

(** ** Author entities *)

Lemma build_author_institution (inst : yaml_value) (ids : list str)
  (i : nat) (nm : str) (v : yaml_value) :
  institution (build_author inst ids i nm) = Some v
  <-> i = 0 /\ inst = v /\ truthy v = true.
Proof.
  unfold build_author; simpl. split.
  - destruct (Nat.eqb_spec i 0) as [->|Hi]; simpl; [|discriminate].
    destruct (truthy inst) eqn:Et; [|discriminate].
    intros H; inversion H; subst. auto.
  - intros (-> & -> & Ht). simpl. now rewrite Ht.
Qed.

Lemma build_author_orcid (inst : yaml_value) (ids : list str)
  (i : nat) (nm o : str) :
  Forall trimmed ids ->
  orcid (build_author inst ids i nm) = Some o
  <-> nth_error ids i = Some o /\ o <> [] /\ orcid_re o = true.
Proof.
  intros Hids. unfold build_author; simpl.
  destruct (nth_error ids i) as [o'|] eqn:Eo.
  - assert (Ht : strip o' = o').
    { apply trimmed_strip. rewrite Forall_forall in Hids.
      apply Hids. eapply nth_error_In; eassumption. }
    rewrite Ht. split.
    + destruct o' as [|c o']; simpl; [discriminate|].
      destruct (orcid_re (c :: o')) eqn:Er; [|discriminate].
      intros H; inversion H; subst. repeat split; congruence.
    + intros (H & Hne & Hre). inversion H; subst o'.
      rewrite Hre. destruct o; [congruence | reflexivity].
  - split; [discriminate | intros (H & _); discriminate].
Qed.

Lemma institution_default (d : dict yaml_value) (v : yaml_value) :
  dict_get_default (lit "institution") (Scalar []) d = v /\ truthy v = true
  <-> dict_get (lit "institution") d = Some v /\ truthy v = true.
Proof.
  unfold dict_get_default.
  destruct (dict_get (lit "institution") d) as [w|].
  - split; intros [H Ht]; split; congruence.
  - split; intros [H Ht]; [subst v; discriminate | discriminate].
Qed.

(** C5: after a conversion, the i-th author entity has the i-th name; it
    has an [institution] exactly when i = 0 and the original block has a
    non-empty [institution] (and then it is that value); it has an [orcid]
    exactly when the i-th identifier exists, is not empty and matches
    [^\d{4}-\d{4}-\d{4}-\d{4}[X]?$] (and then it is that identifier); on
    the identifiers, which are trimmed, the pattern matches exactly four
    groups of four digits separated by dashes with an optional final X.
    An identifier that does not match leaves the entity without [orcid]
    and with its name. *)
Theorem author_assembly (d : dict yaml_value) (new : dict entry) :
  convert_to_multiauthor d = Ok (new, true) ->
  exists author_str ids l,
    dict_get (lit "author") d = Some (Scalar author_str)
    /\ parse_orcids (dict_get_default (lit "ORCID") (Scalar []) d) = Ok ids
    /\ dict_get (lit "authors") new = Some (AuthorList l)
    /\ length l = length (author_names author_str)
    /\ forall i a, nth_error l i = Some a ->
         nth_error (author_names author_str) i = Some (name a)
         /\ (forall v, institution a = Some v <->
               i = 0 /\ dict_get (lit "institution") d = Some v
               /\ truthy v = true)
         /\ (forall o, orcid a = Some o <->
               nth_error ids i = Some o /\ o <> [] /\ orcid_re o = true)
         /\ (forall o, nth_error ids i = Some o ->
               (orcid_re o = true <-> orcid_shape o)).
Proof.
  intros Hconv.
  apply convert_changed in Hconv as (_ & s & ids & Hs & Hids & ->).
  exists s, ids. eexists.
  split; [exact Hs|]. split; [exact Hids|].
  split; [apply new_record_authors|].
  split; [apply build_authors_length|].
  intros i a Ha. rewrite build_authors_nth in Ha.
  destruct (nth_error (author_names s) i) as [nm|]; [|discriminate].
  simpl in Ha. inversion Ha; subst a; clear Ha.
  split; [reflexivity|]. split.
  - intros v. rewrite build_author_institution.
    rewrite <- institution_default. tauto.
  - split.
    + intros o. apply build_author_orcid.
      eapply parse_orcids_trimmed; eassumption.
    + intros o Ho. apply orcid_re_shape.
      apply parse_orcids_trimmed in Hids. rewrite Forall_forall in Hids.
      apply Hids. eapply nth_error_In; eassumption.
Qed.

Lemma author_assembly_witness :
  exists l,
    dict_get (lit "authors") (converted ex_pair) = Some (AuthorList l)
    /\ l = [ {| name := lit "A";
                institution := Some (Scalar (lit "Acme U"));
                orcid := None |};
             {| name := lit "B";
                institution := None;
                orcid := Some (lit "0000-0002-3456-7890") |} ].
Proof.
  destruct (@author_assembly ex_pair (converted ex_pair) eq_refl)
    as (s & ids & l & _ & _ & Hl & _).
  exists l. split; [exact Hl|].
  vm_compute in Hl. inversion Hl. reflexivity.
Defined.

(** ** New record assembly *)





(** ** Names of author entities *)

(** C8, counterexample: the document whose [author] is "a and  and b"
    is converted, and its second author entity has the empty name. *)
Lemma empty_name_counterexample :
  exists d remainder new l a,
    parse_yaml_frontmatter ex_blank_name = (Some d, remainder)
    /\ convert_to_multiauthor d = Ok (new, true)
    /\ dict_get (lit "authors") new = Some (AuthorList l)
    /\ nth_error l 1 = Some a
    /\ name a = [].
Proof.
  do 5 eexists. repeat split; vm_compute; reflexivity.
Qed.

(** C8, as amended: a conversion gives at least one author entity; the
    names are, in order, the trimmed pieces of the [author] value (split
    on " and ", or on ", ", or the whole value), and a name is empty exactly
    when its piece consists of whitespace only. *)
Theorem names_are_trimmed_pieces (d : dict yaml_value) (new : dict entry) :
  convert_to_multiauthor d = Ok (new, true) ->
  exists author_str pieces l,
    dict_get (lit "author") d = Some (Scalar author_str)
    /\ (pieces = split (lit " and ") author_str
        \/ pieces = split (lit ", ") author_str
        \/ pieces = [author_str])
    /\ dict_get (lit "authors") new = Some (AuthorList l)
    /\ l <> []
    /\ map name l = map strip pieces
    /\ Forall2 (fun a piece =>
                  name a = strip piece
                  /\ (name a = [] <-> forallb isspace piece = true))
         l pieces.
Proof.
  intros Hconv.
  apply convert_changed in Hconv as (_ & s & ids & Hs & _ & ->).
  set (inst := dict_get_default (lit "institution") (Scalar []) d).
  assert (Hex : exists pieces,
             (pieces = split (lit " and ") s \/ pieces = split (lit ", ") s
              \/ pieces = [s])
             /\ pieces <> [] /\ author_names s = map strip pieces).
  { unfold author_names. destruct (contains (lit " and ") s).
    - eexists; split; [left; reflexivity|].
      split; [apply split_go_nonempty | reflexivity].
    - destruct (_ && _).
      + eexists; split; [right; left; reflexivity|].
        split; [apply split_go_nonempty | reflexivity].
      + exists [s]. split; [auto|]. split; [discriminate | reflexivity]. }
  destruct Hex as (pieces & Hcase & Hne & Hnames).
  exists s, pieces, (build_authors inst ids (author_names s)).
  split; [exact Hs|]. split; [exact Hcase|].
  split; [apply new_record_authors|].
  assert (Hmap : map name (build_authors inst ids (author_names s))
                 = map strip pieces)
    by (rewrite build_authors_names; exact Hnames).
  split.
  { intros Hnil. rewrite Hnil in Hmap. simpl in Hmap.
    destruct pieces; [congruence | discriminate]. }
  split; [exact Hmap|].
  clear Hcase Hne Hnames.
  revert pieces Hmap.
  induction (build_authors inst ids (author_names s)) as [|a l IH];
    intros [|p ps] Hmap; simpl in Hmap; try discriminate; constructor.
  - inversion Hmap as [[Ha Hl]]. split; [reflexivity|].
    rewrite Ha. apply strip_nil_iff.
  - inversion Hmap. now apply IH.
Qed.

Lemma names_are_trimmed_pieces_witness :
  exists l,
    dict_get (lit "authors") (converted ex_pair) = Some (AuthorList l)
    /\ map name l = [lit "A"; lit "B"].
Proof.
  destruct (@names_are_trimmed_pieces ex_pair (converted ex_pair) eq_refl)
    as (s & pieces & l & Hs & _ & Hl & _ & _ & _).
  exists l. split; [exact Hl|].
  vm_compute in Hl. inversion Hl. reflexivity.
Defined.

(** ** The reader *)

Lemma parse_line_unfold (st : reader_state) (line : str) :
  is_empty (strip line) = false ->
  startswith (lit "  - ") line = false ->
  startswith (lit "- ") line = false ->
  contains [COLON] line = true ->
  parse_line st line
  = let key := strip (fst (partition COLON line)) in
    let value := unquote (strip (snd (partition COLON line))) in
    if is_empty value
    then {| data := dict_set key (Sequence []) (data st);
            current_list := Some key |}
    else {| data := dict_set key (Scalar value) (data st);
            current_list := None |}.
Proof.
  intros H1 H2 H3 H4. unfold parse_line. rewrite H1, H2, H3, H4.
  destruct (partition COLON line). reflexivity.
Qed.

(** C10: on a line that is not blank, is not a list item and contains a
    colon, when the trimmed text after the first colon is one quote
    character alone, the quote is stripped to the empty string: the key
    is stored with a new empty list, which becomes the current list, and a
    list-item line that follows is appended to it. *)
Theorem lone_quote_starts_sequence (st : reader_state) (line : str)
  (q : ascii) :
  strip line <> [] ->
  startswith (lit "  - ") line = false ->
  startswith (lit "- ") line = false ->
  In COLON line ->
  strip (snd (partition COLON line)) = [q] ->
  q = DQUOTE \/ q = SQUOTE ->
  let key := strip (fst (partition COLON line)) in
  unquote [q] = []
  /\ parse_line st line
     = {| data := dict_set key (Sequence []) (data st);
          current_list := Some key |}
  /\ forall item,
       strip (lit "  - " ++ item) <> [] ->
       parse_line (parse_line st line) (lit "  - " ++ item)
       = {| data := dict_set key (Sequence [strip item])
                      (dict_set key (Sequence []) (data st));
            current_list := Some key |}.
Proof.
  intros Hblank Hitem1 Hitem2 Hcolon Hvalue Hq key.
  assert (Hunq : unquote [q] = [])
    by (destruct Hq as [-> | ->]; reflexivity).
  assert (Hline : parse_line st line
                  = {| data := dict_set key (Sequence []) (data st);
                       current_list := Some key |}).
  { rewrite parse_line_unfold; try assumption.
    - simpl. rewrite Hvalue, Hunq. reflexivity.
    - destruct (strip line); [congruence | reflexivity].
    - now apply contains_single. }
  split; [exact Hunq|]. split; [exact Hline|].
  intros item Hitem. rewrite Hline. unfold parse_line.
  destruct (strip (lit "  - " ++ item)) eqn:Es; [congruence|].
  simpl is_empty. cbv iota.
  change (startswith (lit "  - ") (lit "  - " ++ item)) with true.
  cbv iota. change (skipn 4 (lit "  - " ++ item)) with item.
  unfold list_append. simpl. rewrite dict_get_set_same. reflexivity.
Qed.

Lemma lone_quote_starts_sequence_witness :
  parse_line (parse_line init_state (lit "tags: " ++ [DQUOTE]))
    (lit "  - x")
  = {| data := [(lit "tags", Sequence [lit "x"])];
       current_list := Some (lit "tags") |}.
Proof.
  assert (Hne : strip (lit "tags: " ++ [DQUOTE]) <> []) by discriminate.
  assert (Hin : In COLON (lit "tags: " ++ [DQUOTE]))
    by (vm_compute; tauto).
  assert (Hx : strip (lit "  - " ++ lit "x") <> []) by discriminate.
  destruct (@lone_quote_starts_sequence init_state
              (lit "tags: " ++ [DQUOTE]) DQUOTE Hne eq_refl eq_refl Hin
              eq_refl (or_introl eq_refl))
    as (_ & _ & Hnext).
  exact (Hnext (lit "x") Hx).
Defined.

(** The reader is a total function, and the converter returns normally
    whenever [author] is a scalar and [ORCID] is a scalar, an empty list
    or absent. *)
Lemma convert_ok_on_scalars (d : dict yaml_value) :
  (forall l, dict_get (lit "author") d <> Some (Sequence l)) ->
  (forall x l, dict_get (lit "ORCID") d <> Some (Sequence (x :: l))) ->
  exists r, convert_to_multiauthor d = Ok r.
Proof.
  intros Hauthor Horcid. unfold convert_to_multiauthor.
  destruct (dict_mem (lit "authors") d); [eauto|].
  destruct (dict_get (lit "author") d) as [[s|l]|] eqn:Ea; [| |eauto].
  - cbn [parse_names bind]. unfold dict_get_default.
    destruct (dict_get (lit "ORCID") d) as [[o|[|x l]]|] eqn:Eo;
      cbn [parse_orcids bind]; eauto.
    exfalso. exact (Horcid x l eq_refl).
  - exfalso. exact (Hauthor l eq_refl).
Qed.

(** C2, at the failing input: for the document whose [author] key has an
    empty value and a list item under it, the reader returns the block
    with [author] bound to a list, and the converter raises
    [AttributeError]; [migrate_file] does not catch it. *)
Theorem list_valued_author_raises :
  parse_yaml_frontmatter ex_author_list
  = (Some [(lit "author", Sequence [lit "Jane Doe"])], [LF])
  /\ convert_to_multiauthor [(lit "author", Sequence [lit "Jane Doe"])]
     = Raise AttributeError
  /\ migrate_file ex_author_list = Raise AttributeError.
Proof. repeat split; vm_compute; reflexivity. Qed.

(** ** The frontmatter match *)

Lemma parse_yaml_frontmatter_cases (content : str) :
  (exists body remainder,
      content = OPEN_DELIM ++ body ++ CLOSE_DELIM ++ remainder
      /\ lazy_until CLOSE_DELIM (body ++ CLOSE_DELIM ++ remainder)
         = Some (body, remainder)
      /\ parse_yaml_frontmatter content
         = (Some (data (parse_lines (split [LF] body))), remainder))
  \/ (parse_yaml_frontmatter content = (None, content)
      /\ ~ exists body rest,
             content = OPEN_DELIM ++ body ++ CLOSE_DELIM ++ rest).
Proof.
  unfold parse_yaml_frontmatter.
  destruct (startswith OPEN_DELIM content) eqn:Eo.
  - apply startswith_inv in Eo as [r ->]. rewrite skipn_length_app.
    destruct (lazy_until CLOSE_DELIM r) as [[g rest]|] eqn:El.
    + left. exists g, rest.
      pose proof (lazy_until_some _ _ El) as ->. auto.
    + right. split; [reflexivity|].
      intros (body & rest & H). apply app_inv_head in H. subst r.
      apply lazy_until_none in El.
      assert (contains CLOSE_DELIM (body ++ CLOSE_DELIM ++ rest) = true)
        by (apply contains_iff; eauto).
      congruence.
  - right. split; [reflexivity|].
    intros (body & rest & ->). rewrite startswith_app in Eo. discriminate.
Qed.

(** C9, counterexample: in this text the only line after the first that
    starts with [---] is the longer line [---x]; the text does not begin
    with a block in the specification's reading, and the reader returns
    a block, with the rest of that line at the start of the remainder. *)
Lemma long_closing_line_counterexample :
  begins_with_block_spec ex_long_closing_line = false
  /\ parse_yaml_frontmatter ex_long_closing_line
     = (Some [(lit "title", Scalar (lit "T"))], lit "x" ++ [LF] ++ lit "body")
  /\ ~ (fst (parse_yaml_frontmatter ex_long_closing_line) = None
        <-> begins_with_block_spec ex_long_closing_line = false).
Proof.
  split; [vm_compute; reflexivity|].
  split; [vm_compute; reflexivity|].
  intros [_ H]. specialize (H eq_refl). vm_compute in H. discriminate.
Qed.

(** C9, as amended: the reader reports "no frontmatter" (and returns the
    text itself) exactly when the text is not [---], a newline, a body, a
    newline and [---] followed by any text; the closing [---] need not be
    a whole line.  When there is a block, the body is the shortest one, the
    block is parsed from the lines of that body, and the remainder is all
    the text after the three closing dashes. *)
Theorem frontmatter_match (content : str) :
  (fst (parse_yaml_frontmatter content) = None
   <-> ~ exists body rest,
           content = OPEN_DELIM ++ body ++ CLOSE_DELIM ++ rest)
  /\ (fst (parse_yaml_frontmatter content) = None ->
      snd (parse_yaml_frontmatter content) = content)
  /\ (forall d remainder,
        parse_yaml_frontmatter content = (Some d, remainder) ->
        exists body,
          content = OPEN_DELIM ++ body ++ CLOSE_DELIM ++ remainder
          /\ d = data (parse_lines (split [LF] body))
          /\ forall body' rest',
               content = OPEN_DELIM ++ body' ++ CLOSE_DELIM ++ rest' ->
               length body <= length body').
Proof.
  destruct (parse_yaml_frontmatter_cases content)
    as [(body & remainder & Hc & Hl & Hp) | (Hp & Hno)].
  - rewrite Hp. cbn [fst snd]. split; [|split].
    + split; [discriminate|]. intros H. exfalso. apply H.
      exists body, remainder. exact Hc.
    + discriminate.
    + intros d rem H. inversion H; subst d rem; clear H.
      exists body. split; [exact Hc|]. split; [reflexivity|].
      intros body' rest' Hc'. rewrite Hc in Hc'.
      apply app_inv_head in Hc'.
      eapply lazy_until_shortest; eassumption.
  - rewrite Hp. cbn [fst snd]. split; [|split].
    + tauto.
    + reflexivity.
    + discriminate.
Qed.

Lemma frontmatter_match_witness :
  exists body,
    ex_long_closing_line
    = OPEN_DELIM ++ body ++ CLOSE_DELIM ++ (lit "x" ++ [LF] ++ lit "body").
Proof.
  destruct (proj2 (proj2 (frontmatter_match ex_long_closing_line))
              [(lit "title", Scalar (lit "T"))]
              (lit "x" ++ [LF] ++ lit "body") eq_refl)
    as (body & Hc & _ & _).
  exists body. exact Hc.
Defined.

(** ** Values without a newline *)

Lemma partition_chars (P : ascii -> Prop) (c : ascii) (s : str) :
  Forall P s ->
  Forall P (fst (partition c s)) /\ Forall P (snd (partition c s)).
Proof.
  induction 1 as [|x s Hx Hs [IH1 IH2]]; simpl; [split; constructor|].
  destruct (Ascii.eqb x c); simpl; [split; [constructor | assumption]|].
  destruct (partition c s) as [a b]; simpl in *.
  split; [constructor|]; assumption.
Qed.

Lemma removelast_chars (P : ascii -> Prop) (s : str) :
  Forall P s -> Forall P (removelast s).
Proof.
  induction 1 as [|x s Hx Hs IH]; simpl; [constructor|].
  destruct s; [constructor | constructor; assumption].
Qed.

Lemma unquote_chars (P : ascii -> Prop) (s : str) :
  Forall P s -> Forall P (unquote s).
Proof.
  intros H. unfold unquote, slice_1_m1.
  assert (Forall P (removelast (tl s))).
  { apply removelast_chars. destruct H; simpl; [constructor | assumption]. }
  destruct (_ && _); [assumption|]. destruct (_ && _); assumption.
Qed.

Lemma skipn_chars (P : ascii -> Prop) (n : nat) (s : str) :
  Forall P s -> Forall P (skipn n s).
Proof.
  intros H. revert n. induction H; intros [|n]; simpl; auto.
Qed.

Lemma re_sub_go_chars (P : ascii -> Prop) (pats : list str) (s : str) :
  Forall P s -> forall k, Forall P (re_sub_go pats k s).
Proof.
  induction 1 as [|c s Hc Hs IH]; intros k; simpl; [constructor|].
  destruct k; [|apply IH].
  destruct (find _ pats); [apply IH | constructor; [assumption | apply IH]].
Qed.

Lemma dict_get_nolf (d : dict yaml_value) (k : str) (v : yaml_value) :
  nolf_block d -> dict_get k d = Some v -> nolf_value v.
Proof.
  intros Hd Hk. apply dict_get_In in Hk.
  unfold nolf_block in Hd. rewrite Forall_forall in Hd.
  exact (Hd _ Hk).
Qed.

Lemma list_append_nolf (st : reader_state) (item : str) :
  nolf_block (data st) -> nolf item -> nolf_block (data (list_append st item)).
Proof.
  intros Hd Hi. unfold list_append.
  destruct (current_list st) as [k|]; [|assumption].
  destruct (dict_get k (data st)) as [[s|l]|] eqn:Ek; try assumption.
  simpl. apply (dict_set_values nolf_value); [|assumption].
  simpl. apply Forall_app. split.
  - exact (dict_get_nolf _ Hd Ek).
  - repeat constructor. assumption.
Qed.

Lemma parse_line_nolf (st : reader_state) (line : str) :
  nolf_block (data st) -> nolf line -> nolf_block (data (parse_line st line)).
Proof.
  intros Hd Hl. unfold parse_line.
  destruct (is_empty (strip line)); [assumption|].
  destruct (startswith (lit "  - ") line).
  { apply list_append_nolf; [assumption|]. apply strip_chars, skipn_chars, Hl. }
  destruct (startswith (lit "- ") line).
  { apply list_append_nolf; [assumption|]. apply strip_chars, skipn_chars, Hl. }
  destruct (contains [COLON] line); [|assumption].
  pose proof (partition_chars COLON Hl) as [_ Hv].
  destruct (partition COLON line) as [key value]. simpl in Hv.
  destruct (is_empty _) eqn:Ee; simpl.
  - apply (dict_set_values nolf_value); [constructor | assumption].
  - apply (dict_set_values nolf_value); [|assumption].
    simpl. apply unquote_chars, strip_chars, Hv.
Qed.

Lemma parse_lines_nolf (lines : list str) :
  Forall nolf lines -> nolf_block (data (parse_lines lines)).
Proof.
  unfold parse_lines.
  assert (H : forall st, nolf_block (data st) -> Forall nolf lines ->
                         nolf_block (data (fold_left parse_line lines st))).
  { induction lines as [|l ls IH]; intros st Hst Hls; simpl; [assumption|].
    inversion Hls; subst. apply IH; [|assumption].
    now apply parse_line_nolf. }
  apply H. constructor.
Qed.

Lemma split_lines_nolf (s : str) : Forall nolf (split [LF] s).
Proof.
  pose proof (split_single_no_sep LF s) as H.
  rewrite Forall_forall in *. intros l Hl. specialize (H l Hl).
  apply Forall_forall. intros c Hc ->. contradiction.
Qed.

(** No value of a block that the reader returns contains a newline. *)
Lemma reader_nolf (content : str) (d : dict yaml_value) (remainder : str) :
  parse_yaml_frontmatter content = (Some d, remainder) -> nolf_block d.
Proof.
  intros H.
  destruct (parse_yaml_frontmatter_cases content)
    as [(body & rem & _ & _ & Hp) | (Hp & _)]; rewrite Hp in H.
  - inversion H; subst. apply parse_lines_nolf, split_lines_nolf.
  - discriminate.
Qed.

Lemma author_names_nolf (s : str) : nolf s -> Forall nolf (author_names s).
Proof.
  intros H. unfold author_names.
  assert (Hsplit : forall sep, Forall nolf (map strip (split sep s))).
  { intros sep. apply Forall_map.
    eapply Forall_impl; [|apply (split_chars sep H)].
    intros p Hp. now apply strip_chars. }
  destruct (contains _ s); [apply Hsplit|].
  destruct (_ && _); [apply Hsplit|].
  repeat constructor. now apply strip_chars.
Qed.

Lemma orcids_nolf (s : str) : nolf s -> Forall nolf (orcids s).
Proof.
  intros H. unfold orcids. destruct (is_empty s); [constructor|].
  assert (H' : nolf (re_sub_empty ORCID_URL s)) by now apply re_sub_go_chars.
  set (t := re_sub_empty ORCID_URL s) in *.
  assert (Hsplit : forall sep, Forall nolf (map strip (split sep t))).
  { intros sep. apply Forall_map.
    eapply Forall_impl; [|apply (split_chars sep H')].
    intros p Hp. now apply strip_chars. }
  destruct (contains _ t); [apply Hsplit|].
  destruct (contains _ t).
  { apply Forall_map. apply Forall_forall. intros p Hp.
    apply filter_In in Hp as [Hp _].
    pose proof (split_chars (lit ";") H') as Hs.
    rewrite Forall_forall in Hs.
    apply rstrip_char_chars, strip_chars, Hs, Hp. }
  destruct (contains _ t); [apply Hsplit|].
  repeat constructor. now apply strip_chars.
Qed.

Lemma parse_orcids_nolf (v : yaml_value) (ids : list str) :
  nolf_value v -> parse_orcids v = Ok ids -> Forall nolf ids.
Proof.
  destruct v as [s|[|x l]]; simpl; intros Hv H; inversion H; subst.
  - now apply orcids_nolf.
  - constructor.
Qed.

Lemma build_authors_nolf (inst : yaml_value) (ids names : list str) :
  nolf_value inst -> Forall nolf ids -> Forall nolf names ->
  Forall nolf_author (build_authors inst ids names).
Proof.
  intros Hinst Hids Hnames. apply Forall_forall. intros a Ha.
  apply In_nth_error in Ha as [i Hi]. rewrite build_authors_nth in Hi.
  destruct (nth_error names i) as [nm|] eqn:En; [|discriminate].
  simpl in Hi. inversion Hi; subst a; clear Hi.
  rewrite Forall_forall in Hnames, Hids.
  split; [|split]; simpl.
  - apply Hnames. eapply nth_error_In; eassumption.
  - intros o. destruct (nth_error ids i) as [o'|] eqn:Eo; [|discriminate].
    destruct (_ && _); [|discriminate].
    intros H; inversion H; subst. apply strip_chars, Hids.
    eapply nth_error_In; eassumption.
  - intros v. destruct (_ && _); [|discriminate].
    intros H; inversion H; subst. assumption.
Qed.

(** ** The lines of the writer *)

Ltac nolf_literal :=
  cbv; repeat (constructor; [intros ?; discriminate|]); constructor.

Lemma nolf_app (a b : str) : nolf a -> nolf b -> nolf (a ++ b).
Proof. intros Ha Hb. apply Forall_app. now split. Qed.

Lemma escape_char_chars (P : ascii -> Prop) (c : ascii) (s : str) :
  P BACKSLASH -> Forall P s -> Forall P (escape_char c s).
Proof.
  intros Hb. induction 1 as [|x s Hx Hs IH]; simpl; [constructor|].
  destruct (Ascii.eqb x c); simpl; repeat constructor; assumption.
Qed.

Lemma format_str_nolf (s : str) : nolf s -> nolf (format_str s).
Proof.
  intros H. unfold format_str. destruct (_ || _); [|assumption].
  constructor; [discriminate|]. apply nolf_app.
  - apply escape_char_chars; [discriminate|].
    apply escape_char_chars; [discriminate | assumption].
  - nolf_literal.
Qed.

Lemma hex_digit_not_lf (n : nat) : not_lf (hex_digit n).
Proof.
  unfold hex_digit.
  do 16 (destruct n as [|n]; [discriminate|]).
  destruct n; discriminate.
Qed.

Lemma repr_char_nolf (quote c : ascii) :
  quote <> LF -> nolf (repr_char quote c).
Proof.
  intros Hq. unfold repr_char.
  destruct (Ascii.eqb c quote || Ascii.eqb c BACKSLASH) eqn:E.
  { constructor; [discriminate|]. constructor; [|constructor].
    apply orb_true_iff in E as [E|E]; apply Ascii.eqb_eq in E; subst c;
      [assumption | discriminate]. }
  destruct (nat_of_ascii c =? 9); [nolf_literal|].
  destruct (nat_of_ascii c =? 10) eqn:E10; [nolf_literal|].
  destruct (nat_of_ascii c =? 13); [nolf_literal|].
  destruct (isprintable c).
  { constructor; [|constructor]. intros ->. discriminate. }
  apply nolf_app; [nolf_literal|].
  repeat constructor; apply hex_digit_not_lf.
Qed.

Lemma repr_quoted_nolf (quote : ascii) (s : str) :
  quote <> LF -> nolf (quote :: flat_map (repr_char quote) s ++ [quote]).
Proof.
  intros Hq. constructor; [exact Hq|]. apply nolf_app.
  - induction s as [|c s IH]; simpl; [constructor|].
    apply nolf_app; [now apply repr_char_nolf | assumption].
  - constructor; [exact Hq | constructor].
Qed.

Lemma repr_str_nolf (s : str) : nolf (repr_str s).
Proof.
  unfold repr_str.
  destruct (contains [SQUOTE] s && negb (contains [DQUOTE] s));
    apply repr_quoted_nolf; discriminate.
Qed.

Lemma join_nolf (sep : str) (ps : list str) :
  nolf sep -> Forall nolf ps -> nolf (join sep ps).
Proof.
  intros Hsep. induction 1 as [|p ps Hp Hps IH]; [constructor|].
  destruct ps as [|q ps]; [assumption|].
  rewrite join_cons by discriminate.
  apply nolf_app; [assumption|]. now apply nolf_app.
Qed.

Lemma repr_list_nolf (l : list str) : nolf (repr_list l).
Proof.
  unfold repr_list. apply nolf_app; [nolf_literal|]. apply nolf_app.
  - apply join_nolf; [nolf_literal|].
    apply Forall_map, Forall_forall. intros s _. apply repr_str_nolf.
  - nolf_literal.
Qed.

Lemma fstring_format_nolf (v : yaml_value) :
  nolf_value v -> nolf (fstring (format_yaml_value v)).
Proof.
  destruct v as [s|l]; simpl; intros H.
  - now apply format_str_nolf.
  - apply repr_list_nolf.
Qed.

(** A line that starts with a literal other than a dash *)
Lemma plain_line_prefix (x y : str) :
  nolf x -> startswith (lit "-") x = false -> x <> [] -> nolf y ->
  plain_line (x ++ y).
Proof.
  intros Hx Hd Hne Hy. split; [now apply nolf_app|].
  destruct x as [|c x]; [congruence|]. simpl app.
  change (Ascii.eqb "-" c && true = false) in Hd.
  change (Ascii.eqb "-" c && true = false). exact Hd.
Qed.

Ltac plain_literal_prefix :=
  apply plain_line_prefix; [nolf_literal | reflexivity | discriminate | ].

Lemma author_lines_plain (a : author) :
  nolf_author a -> Forall plain_line (author_lines a).
Proof.
  intros (Hn & Ho & Hi). unfold author_lines.
  apply Forall_app. split; [|apply Forall_app; split].
  - constructor; [|constructor].
    plain_literal_prefix. now apply format_str_nolf.
  - destruct (orcid a) as [o|]; [|constructor].
    constructor; [|constructor]. plain_literal_prefix. now apply Ho.
  - destruct (institution a) as [v|]; [|constructor].
    constructor; [|constructor]. plain_literal_prefix.
    apply fstring_format_nolf. now apply Hi.
Qed.

Lemma authors_lines_plain (l : list author) :
  Forall nolf_author l ->
  entry_lines (lit "authors") (AuthorList l)
  = Ok (lit "authors:" :: flat_map author_lines l)
  /\ Forall plain_line (lit "authors:" :: flat_map author_lines l).
Proof.
  intros H. split; [reflexivity|]. constructor.
  - split; [nolf_literal | reflexivity].
  - induction H as [|a l Ha Hl IH]; cbn [flat_map]; [constructor|].
    apply Forall_app. split; [now apply author_lines_plain | assumption].
Qed.

Lemma field_lines_plain (k : str) (v : yaml_value) :
  plain_key k -> nolf_value v ->
  exists ls, entry_lines k (Field v) = Ok ls /\ Forall plain_line ls.
Proof.
  intros (Hk & Hd & Hne & Ha) Hv. unfold entry_lines. rewrite Ha.
  destruct v as [s|l]; eexists; (split; [reflexivity|]).
  - constructor; [|constructor].
    apply plain_line_prefix; try assumption.
    apply nolf_app; [nolf_literal | now apply format_str_nolf].
  - constructor.
    + apply plain_line_prefix; try assumption. nolf_literal.
    + apply Forall_map. simpl in Hv.
      eapply Forall_impl; [|exact Hv]. intros item Hitem.
      plain_literal_prefix. now apply format_str_nolf.
Qed.

Lemma copied_lines_plain (d : dict yaml_value) (ks : list str) :
  nolf_block d -> Forall plain_key ks ->
  exists ls,
    block_lines (flat_map (copied_entry d) ks) = Ok ls
    /\ Forall plain_line ls.
Proof.
  intros Hd. induction 1 as [|k ks Hk Hks (ls & Hls & Hplain)];
    cbn [flat_map].
  - exists []. split; [reflexivity | constructor].
  - unfold copied_entry at 1.
    destruct (dict_get k d) as [v|] eqn:Ek; [|eauto].
    destruct (truthy v); [|eauto].
    destruct (@field_lines_plain k v Hk (dict_get_nolf _ Hd Ek))
      as (l1 & Hl1 & Hp1).
    exists (l1 ++ ls). cbn [app block_lines]. rewrite Hl1, Hls.
    split; [reflexivity|]. apply Forall_app. now split.
Qed.

Lemma COPIED_KEYS_plain : Forall plain_key COPIED_KEYS.
Proof.
  unfold COPIED_KEYS.
  repeat (constructor;
          [split; [nolf_literal|];
           split; [reflexivity|]; split; [discriminate | reflexivity]|]).
  constructor.
Qed.

Lemma default_nolf (d : dict yaml_value) (k : str) (default : yaml_value) :
  nolf_block d -> nolf_value default ->
  nolf_value (dict_get_default k default d).
Proof.
  intros Hd Hdef. unfold dict_get_default.
  destruct (dict_get k d) as [v|] eqn:Ek; [|assumption].
  exact (dict_get_nolf _ Hd Ek).
Qed.

(** The lines that the writer emits for a converted block: none contains
    a newline, none starts with a dash, and [authors:] is one of them. *)
Lemma new_record_lines (d : dict yaml_value) (authors : list author) :
  nolf_block d -> Forall nolf_author authors ->
  exists ls,
    block_lines (new_record d authors) = Ok ls
    /\ Forall plain_line ls
    /\ In (lit "authors:") ls.
Proof.
  intros Hd Hauthors. rewrite new_record_explicit.
  assert (Hlayout : plain_key (lit "layout"))
    by (split; [nolf_literal|]; split; [reflexivity|];
        split; [discriminate | reflexivity]).
  assert (Htitle : plain_key (lit "title"))
    by (split; [nolf_literal|]; split; [reflexivity|];
        split; [discriminate | reflexivity]).
  destruct (@field_lines_plain (lit "layout")
              (dict_get_default (lit "layout") (Scalar (lit "grant")) d)
              Hlayout)
    as (l1 & Hl1 & Hp1).
  { apply default_nolf; [assumption | nolf_literal]. }
  destruct (@field_lines_plain (lit "title")
              (dict_get_default (lit "title") (Scalar []) d) Htitle)
    as (l2 & Hl2 & Hp2).
  { apply default_nolf; [assumption | constructor]. }
  destruct (authors_lines_plain Hauthors) as (Hl3 & Hp3).
  destruct (copied_lines_plain Hd COPIED_KEYS_plain) as (l4 & Hl4 & Hp4).
  exists (l1 ++ l2 ++ (lit "authors:" :: flat_map author_lines authors) ++ l4).
  cbn [app block_lines]. rewrite Hl1, Hl2, Hl3, Hl4.
  split; [reflexivity|]. split.
  - apply Forall_app; split; [assumption|].
    apply Forall_app; split; [assumption|].
    inversion Hp3; subst. constructor; [assumption|].
    apply Forall_app; split; assumption.
  - apply in_or_app; right. apply in_or_app; right. now left.
Qed.

(** ** Reading what the writer wrote *)

Lemma join_snoc (sep : str) (ps : list str) (x : str) :
  ps <> [] -> join sep (ps ++ [x]) = join sep ps ++ sep ++ x.
Proof.
  induction ps as [|p ps IH]; intros Hne; [congruence|].
  destruct ps as [|q ps]; [reflexivity|].
  change ((p :: q :: ps) ++ [x]) with (p :: ((q :: ps) ++ [x])).
  rewrite join_cons by discriminate.
  rewrite IH by discriminate.
  rewrite (@join_cons sep p (q :: ps)) by discriminate.
  now rewrite <- !app_assoc.
Qed.

Lemma join_delims (ls : list str) (remainder : str) :
  ls <> [] ->
  join [LF] ([lit "---"] ++ ls ++ [lit "---"]) ++ remainder
  = OPEN_DELIM ++ join [LF] ls ++ CLOSE_DELIM ++ remainder.
Proof.
  intros Hne. change ([lit "---"] ++ ls ++ [lit "---"])
    with (lit "---" :: (ls ++ [lit "---"])).
  rewrite join_cons by (destruct ls; discriminate).
  rewrite join_snoc by assumption.
  unfold OPEN_DELIM, CLOSE_DELIM.
  rewrite <- !app_assoc. reflexivity.
Qed.

Lemma lazy_until_skip (close : str) (c : ascii) (s : str) :
  startswith close (c :: s) = false ->
  lazy_until close (c :: s)
  = match lazy_until close s with
    | Some (g, rest) => Some (c :: g, rest)
    | None => None
    end.
Proof. intros H. rewrite lazy_until_unfold, H. reflexivity. Qed.

(** The lazy match passes over a line without a newline. *)
Lemma lazy_until_line (l s : str) :
  nolf l ->
  lazy_until CLOSE_DELIM (l ++ s)
  = match lazy_until CLOSE_DELIM s with
    | Some (g, rest) => Some (l ++ g, rest)
    | None => None
    end.
Proof.
  induction 1 as [|c l Hc Hl IH]; simpl app.
  - destruct (lazy_until CLOSE_DELIM s) as [[g rest]|]; reflexivity.
  - rewrite lazy_until_skip.
    + rewrite IH. destruct (lazy_until CLOSE_DELIM s) as [[g rest]|];
        reflexivity.
    + unfold CLOSE_DELIM. cbn [startswith].
      destruct (Ascii.eqb_spec LF c) as [<-|_]; [|reflexivity].
      exfalso. now apply Hc.
Qed.

(** ... and finds the closing delimiter after the last of the lines. *)
Lemma lazy_until_lines (ls : list str) (remainder : str) :
  ls <> [] -> Forall plain_line ls ->
  lazy_until CLOSE_DELIM (join [LF] ls ++ CLOSE_DELIM ++ remainder)
  = Some (join [LF] ls, remainder).
Proof.
  intros Hne Hls. induction Hls as [|l ls [Hl Hd] Hls IH]; [congruence|].
  destruct ls as [|l' ls].
  - cbn [join]. rewrite lazy_until_line by assumption.
    rewrite lazy_until_unfold.
    change (startswith CLOSE_DELIM (CLOSE_DELIM ++ remainder))
      with (startswith CLOSE_DELIM (CLOSE_DELIM ++ remainder)).
    rewrite startswith_app, skipn_length_app, app_nil_r. reflexivity.
  - rewrite join_cons by discriminate. rewrite <- !app_assoc.
    rewrite lazy_until_line by assumption.
    change ([LF] ++ join [LF] (l' :: ls) ++ CLOSE_DELIM ++ remainder)
      with (LF :: (join [LF] (l' :: ls) ++ CLOSE_DELIM ++ remainder)).
    rewrite lazy_until_skip.
    + rewrite IH by discriminate. reflexivity.
    + inversion Hls as [|? ? [Hl' Hd'] ?]; subst.
      unfold CLOSE_DELIM. cbn [startswith]. rewrite Ascii.eqb_refl.
      cbn [andb].
      destruct l' as [|c l'].
      * destruct ls as [|l2 ls]; [reflexivity|].
        rewrite join_cons by discriminate. reflexivity.
      * change (Ascii.eqb "-" c && true = false) in Hd'.
        rewrite andb_true_r in Hd'.
        destruct ls as [|l2 ls];
          [cbn [join] | rewrite join_cons by discriminate];
          change (lit "---") with ("-"%char :: lit "--");
          cbn [app startswith]; now rewrite Hd'.
Qed.

Lemma list_append_mem_mono (st : reader_state) (item k : str) :
  dict_mem k (data st) = true ->
  dict_mem k (data (list_append st item)) = true.
Proof.
  intros H. unfold list_append.
  destruct (current_list st) as [k'|]; [|assumption].
  destruct (dict_get k' (data st)) as [[s|l]|]; try assumption.
  simpl. now apply dict_mem_set_mono.
Qed.

(** The reader never removes a key. *)
Lemma parse_line_mem_mono (st : reader_state) (line k : str) :
  dict_mem k (data st) = true ->
  dict_mem k (data (parse_line st line)) = true.
Proof.
  intros H. unfold parse_line.
  destruct (is_empty (strip line)); [assumption|].
  destruct (startswith (lit "  - ") line);
    [now apply list_append_mem_mono|].
  destruct (startswith (lit "- ") line);
    [now apply list_append_mem_mono|].
  destruct (contains [COLON] line); [|assumption].
  destruct (partition COLON line) as [key value].
  destruct (is_empty _); simpl; now apply dict_mem_set_mono.
Qed.

Lemma parse_line_authors (st : reader_state) :
  parse_line st (lit "authors:")
  = {| data := dict_set (lit "authors") (Sequence []) (data st);
       current_list := Some (lit "authors") |}.
Proof. reflexivity. Qed.

Lemma fold_parse_line_mem (k : str) (ls : list str) :
  forall st,
    dict_mem k (data st) = true ->
    dict_mem k (data (fold_left parse_line ls st)) = true.
Proof.
  induction ls as [|l ls IH]; intros st H; simpl; [assumption|].
  apply IH. now apply parse_line_mem_mono.
Qed.

Lemma parse_lines_authors (ls : list str) :
  In (lit "authors:") ls ->
  dict_mem (lit "authors") (data (parse_lines ls)) = true.
Proof.
  unfold parse_lines. generalize init_state.
  induction ls as [|l ls IH]; intros st Hin; [destruct Hin|].
  destruct Hin as [Hl|Hl]; cbn [fold_left].
  - subst l. apply fold_parse_line_mem. rewrite parse_line_authors.
    unfold dict_mem. cbn [data]. now rewrite dict_get_set_same.
  - now apply IH.
Qed.

Lemma plain_lines_no_lf (ls : list str) :
  Forall plain_line ls -> Forall (fun l => ~ In LF l) ls.
Proof.
  intros H. eapply Forall_impl; [|exact H].
  intros l [Hl _] Hin. unfold nolf in Hl. rewrite Forall_forall in Hl.
  now apply (Hl _ Hin).
Qed.

(** The writer's text for a converted block, and what the reader makes
    of it: the block parsed from the written lines, which has the key
    [authors], and the same remainder. *)
Lemma reread_migrated (content : str) (d : dict yaml_value)
  (remainder : str) (new : dict entry) :
  parse_yaml_frontmatter content = (Some d, remainder) ->
  convert_to_multiauthor d = Ok (new, true) ->
  exists ls,
    block_lines new = Ok ls
    /\ write_yaml_frontmatter new remainder
       = Ok (OPEN_DELIM ++ join [LF] ls ++ CLOSE_DELIM ++ remainder)
    /\ parse_yaml_frontmatter
         (OPEN_DELIM ++ join [LF] ls ++ CLOSE_DELIM ++ remainder)
       = (Some (data (parse_lines ls)), remainder)
    /\ dict_mem (lit "authors") (data (parse_lines ls)) = true.
Proof.
  intros Hparse Hconv.
  pose proof (reader_nolf _ Hparse) as Hd.
  apply convert_changed in Hconv as (_ & s & ids & Hs & Hids & ->).
  assert (Hauthors :
            Forall nolf_author
              (build_authors
                 (dict_get_default (lit "institution") (Scalar []) d)
                 ids (author_names s))).
  { apply build_authors_nolf.
    - apply default_nolf; [assumption | constructor].
    - eapply parse_orcids_nolf; [|exact Hids].
      apply default_nolf; [assumption | constructor].
    - apply author_names_nolf. exact (dict_get_nolf _ Hd Hs). }
  destruct (new_record_lines Hd Hauthors) as (ls & Hls & Hplain & Hin).
  assert (Hne : ls <> []) by (destruct ls; [destruct Hin | discriminate]).
  exists ls. split; [exact Hls|]. split; [|split].
  - unfold write_yaml_frontmatter. rewrite Hls. cbn [bind].
    now rewrite join_delims.
  - unfold parse_yaml_frontmatter.
    rewrite startswith_app, skipn_length_app.
    rewrite lazy_until_lines by assumption.
    rewrite split_join_lines; [reflexivity | assumption|].
    now apply plain_lines_no_lf.
  - now apply parse_lines_authors.
Qed.

(** ** Idempotence *)

Lemma convert_skips (d : dict yaml_value) :
  dict_mem (lit "authors") d = true
  \/ (dict_mem (lit "author") d = false /\ dict_mem (lit "authors") d = false)
  ->
  convert_to_multiauthor d = Ok (unchanged d, false).
Proof.
  unfold convert_to_multiauthor.
  intros [H | [H1 H2]].
  - now rewrite H.
  - rewrite H2. unfold dict_mem in H1.
    destruct (dict_get (lit "author") d); [discriminate | reflexivity].
Qed.

(** C1: the converter returns a block that has [authors], or that has
    neither [author] nor [authors], unchanged and with changed = False.
    Consequently, when the migration of a document changes it, the reader
    finds a block in the written text, that block has [authors], the
    converter returns it unchanged with changed = False, and migrating the
    written text again skips it. *)
Theorem migration_idempotent :
  (forall d,
      dict_mem (lit "authors") d = true
      \/ (dict_mem (lit "author") d = false
          /\ dict_mem (lit "authors") d = false) ->
      convert_to_multiauthor d = Ok (unchanged d, false))
  /\ (forall content d remainder new,
        parse_yaml_frontmatter content = (Some d, remainder) ->
        convert_to_multiauthor d = Ok (new, true) ->
        exists out d',
          write_yaml_frontmatter new remainder = Ok out
          /\ migrate_file content = Ok (Some out)
          /\ parse_yaml_frontmatter out = (Some d', remainder)
          /\ dict_mem (lit "authors") d' = true
          /\ convert_to_multiauthor d' = Ok (unchanged d', false)
          /\ migrate_file out = Ok None).
Proof.
  split; [exact convert_skips|].
  intros content d remainder new Hparse Hconv.
  destruct (reread_migrated _ Hparse Hconv) as (ls & Hls & Hw & Hr & Hmem).
  eexists. exists (data (parse_lines ls)).
  split; [exact Hw|].
  assert (Hskip : convert_to_multiauthor (data (parse_lines ls))
                  = Ok (unchanged (data (parse_lines ls)), false))
    by (apply convert_skips; now left).
  repeat split.
  - unfold migrate_file. rewrite Hparse, Hconv. cbn [bind negb].
    rewrite Hw. reflexivity.
  - exact Hr.
  - exact Hmem.
  - exact Hskip.
  - unfold migrate_file. rewrite Hr, Hskip. reflexivity.
Qed.

Lemma migration_idempotent_witness :
  exists out d',
    migrate_file ex_document = Ok (Some out)
    /\ parse_yaml_frontmatter out = (Some d', [LF] ++ lit "Body text." ++ [LF])
    /\ convert_to_multiauthor d' = Ok (unchanged d', false)
    /\ migrate_file out = Ok None.
Proof.
  assert (Hp : parse_yaml_frontmatter ex_document
               = (Some (parsed ex_document),
                  [LF] ++ lit "Body text." ++ [LF]))
    by (vm_compute; reflexivity).
  assert (Hc : convert_to_multiauthor (parsed ex_document)
               = Ok (converted (parsed ex_document), true))
    by (vm_compute; reflexivity).
  destruct (proj2 migration_idempotent ex_document
              (parsed ex_document) ([LF] ++ lit "Body text." ++ [LF])
              (converted (parsed ex_document)) Hp Hc)
    as (out & d' & _ & Hm & Hp' & _ & Hc' & Hm').
  exists out, d'. auto.
Defined.

(** ** The remainder *)

(** C7: for a document with a frontmatter block that the migration
    changes, the text is [---], the body of the block, [---] and the
    remainder; the written text is [---], the lines of the new block,
    [---] and the same remainder, so the remainder is at its end unchanged
    and only the block differs; and the reader finds the same remainder in
    the written text. *)
Theorem remainder_preserved (content : str) (d : dict yaml_value)
  (remainder : str) (new : dict entry) :
  parse_yaml_frontmatter content = (Some d, remainder) ->
  convert_to_multiauthor d = Ok (new, true) ->
  exists body ls out,
    content = OPEN_DELIM ++ body ++ CLOSE_DELIM ++ remainder
    /\ block_lines new = Ok ls
    /\ write_yaml_frontmatter new remainder = Ok out
    /\ migrate_file content = Ok (Some out)
    /\ out = OPEN_DELIM ++ join [LF] ls ++ CLOSE_DELIM ++ remainder
    /\ snd (parse_yaml_frontmatter out) = remainder
    /\ fst (parse_yaml_frontmatter out) <> None.
Proof.
  intros Hparse Hconv.
  destruct (reread_migrated _ Hparse Hconv) as (ls & Hls & Hw & Hr & _).
  destruct (parse_yaml_frontmatter_cases content)
    as [(body & rem & Hc & _ & Hp) | (Hp & _)];
    rewrite Hp in Hparse; [|discriminate].
  inversion Hparse; subst rem. rewrite <- H0 in *. clear H0.
  exists body, ls. eexists.
  split; [exact Hc|]. split; [exact Hls|]. split; [exact Hw|].
  split.
  { unfold migrate_file. rewrite Hp, Hconv. cbn [bind negb].
    rewrite Hw. reflexivity. }
  split; [reflexivity|]. rewrite Hr. split; [reflexivity | discriminate].
Qed.

Lemma remainder_preserved_witness :
  exists out,
    migrate_file ex_document = Ok (Some out)
    /\ snd (parse_yaml_frontmatter out) = [LF] ++ lit "Body text." ++ [LF].
Proof.
  assert (Hp : parse_yaml_frontmatter ex_document
               = (Some (parsed ex_document),
                  [LF] ++ lit "Body text." ++ [LF]))
    by (vm_compute; reflexivity).
  assert (Hc : convert_to_multiauthor (parsed ex_document)
               = Ok (converted (parsed ex_document), true))
    by (vm_compute; reflexivity).
  destruct (@remainder_preserved ex_document
              (parsed ex_document) ([LF] ++ lit "Body text." ++ [LF])
              (converted (parsed ex_document)) Hp Hc)
    as (body & ls & out & _ & _ & _ & Hm & _ & Hs & _).
  exists out. auto.
Defined.

(** * Further properties of the code *)

(** ** The shape of the reader's block *)

Lemma dict_set_entries {V} (P : str * V -> Prop) (k : str) (v : V)
  (d : dict V) :
  P (k, v) -> Forall P d -> Forall P (dict_set k v d).
Proof.
  intros Hkv. induction 1 as [|[k' v'] d Hk' Hd IH]; simpl.
  - repeat constructor. assumption.
  - destruct (str_eqb k' k) eqn:E.
    + apply str_eqb_eq in E; subst k'. constructor; assumption.
    + constructor; assumption.
Qed.

Lemma dict_set_keys {V} (k : str) (v : V) (d : dict V) :
  keys (dict_set k v d) = if dict_mem k d then keys d else keys d ++ [k].
Proof.
  unfold dict_mem, keys. induction d as [|[k' v'] d IH]; simpl.
  - reflexivity.
  - destruct (str_eqb k' k) eqn:E; simpl; [reflexivity|].
    rewrite IH. destruct (dict_get k d); reflexivity.
Qed.

Lemma dict_get_keys {V} (k : str) (d : dict V) :
  dict_get k d = None <-> ~ In k (keys d).
Proof.
  unfold keys. induction d as [|[k' v'] d IH]; simpl.
  - tauto.
  - destruct (str_eqb k' k) eqn:E.
    + apply str_eqb_eq in E. split; [discriminate | intros H; tauto].
    + apply str_eqb_neq in E. rewrite IH. tauto.
Qed.

Lemma dict_set_NoDup {V} (k : str) (v : V) (d : dict V) :
  NoDup (keys d) -> NoDup (keys (dict_set k v d)).
Proof.
  intros H. rewrite dict_set_keys. unfold dict_mem.
  destruct (dict_get k d) eqn:E; [assumption|].
  apply dict_get_keys in E.
  apply NoDup_app; [assumption | repeat constructor; intros [] | ].
  intros x Hx [<-|[]]. contradiction.
Qed.

Lemma partition_fst_no_sep (c : ascii) (s : str) :
  ~ In c (fst (partition c s)).
Proof.
  induction s as [|x s IH]; simpl; [tauto|].
  destruct (Ascii.eqb_spec x c) as [->|Hne]; simpl; [tauto|].
  destruct (partition c s) as [a b]; simpl in *.
  intros [H|H]; [congruence | contradiction].
Qed.

Lemma strip_no_char (c : ascii) (s : str) : ~ In c s -> ~ In c (strip s).
Proof.
  intros H Hin.
  assert (Hf : Forall (fun x => x <> c) (strip s)).
  { apply strip_chars, Forall_forall. intros x Hx ->. contradiction. }
  rewrite Forall_forall in Hf. now apply (Hf _ Hin).
Qed.

Lemma list_append_reader_block (st : reader_state) (item : str) :
  reader_block (data st) -> trimmed item ->
  reader_block (data (list_append st item)).
Proof.
  intros [Hnd Hd] Hi. unfold list_append.
  destruct (current_list st) as [k|]; [|now split].
  destruct (dict_get k (data st)) as [[s|l]|] eqn:Ek; try now split.
  simpl. split; [now apply dict_set_NoDup|].
  apply dict_set_entries; [|assumption].
  apply dict_get_In in Ek. rewrite Forall_forall in Hd.
  destruct (Hd _ Ek) as [Hkey Hval]. split; [exact Hkey|].
  simpl in *. apply Forall_app. split; [assumption|].
  constructor; [assumption | constructor].
Qed.

Lemma parse_line_reader_block (st : reader_state) (line : str) :
  reader_block (data st) -> reader_block (data (parse_line st line)).
Proof.
  intros H. unfold parse_line.
  destruct (is_empty (strip line)); [assumption|].
  destruct (startswith (lit "  - ") line).
  { apply list_append_reader_block; [assumption | apply strip_trimmed]. }
  destruct (startswith (lit "- ") line).
  { apply list_append_reader_block; [assumption | apply strip_trimmed]. }
  destruct (contains [COLON] line); [|assumption].
  pose proof (partition_fst_no_sep COLON line) as Hk.
  destruct (partition COLON line) as [key value]. simpl in Hk.
  destruct H as [Hnd Hd].
  assert (Hkey : reader_key (strip key))
    by (split; [apply strip_trimmed | now apply strip_no_char]).
  destruct (is_empty _) eqn:Ee; simpl.
  - split; [now apply dict_set_NoDup|].
    apply dict_set_entries; [|assumption].
    split; [exact Hkey | constructor].
  - split; [now apply dict_set_NoDup|].
    apply dict_set_entries; [|assumption].
    split; [exact Hkey|]. simpl. intros Hnil. rewrite Hnil in Ee.
    discriminate.
Qed.

Lemma parse_lines_reader_block (lines : list str) :
  reader_block (data (parse_lines lines)).
Proof.
  unfold parse_lines.
  assert (H : forall st, reader_block (data st) ->
                         reader_block (data (fold_left parse_line lines st))).
  { induction lines as [|l ls IH]; intros st Hst; simpl; [assumption|].
    apply IH. now apply parse_line_reader_block. }
  apply H. split; constructor.
Qed.

Lemma reader_returns_reader_block (content : str) (d : dict yaml_value)
  (remainder : str) :
  parse_yaml_frontmatter content = (Some d, remainder) -> reader_block d.
Proof.
  intros H.
  destruct (parse_yaml_frontmatter_cases content)
    as [(body & rem & _ & _ & Hp) | (Hp & _)]; rewrite Hp in H.
  - inversion H; subst. apply parse_lines_reader_block.
  - discriminate.
Qed.

(** X1: in a block that the reader returns, the keys are distinct,
    trimmed and without a colon; no scalar value is empty (a key with an
    empty value holds a list); every list item is trimmed; and no key or
    value contains a newline. *)
Theorem reader_block_shape (content : str) (d : dict yaml_value)
  (remainder : str) :
  parse_yaml_frontmatter content = (Some d, remainder) ->
  NoDup (keys d)
  /\ forall k v, dict_get k d = Some v ->
       trimmed k /\ ~ In COLON k
       /\ nolf_value v
       /\ match v with
          | Scalar s => s <> []
          | Sequence l => Forall trimmed l
          end.
Proof.
  intros H.
  destruct (reader_returns_reader_block _ H) as [Hnd Hd].
  split; [exact Hnd|]. intros k v Hk.
  pose proof (dict_get_nolf _ (reader_nolf _ H) Hk) as Hnolf.
  apply dict_get_In in Hk. rewrite Forall_forall in Hd.
  destruct (Hd _ Hk) as [[Ht Hc] Hv]. simpl in *. auto.
Qed.

Lemma reader_block_shape_witness :
  NoDup (keys (parsed ex_document))
  /\ forall k v, dict_get k (parsed ex_document) = Some v ->
       trimmed k /\ ~ In COLON k
       /\ nolf_value v
       /\ match v with
          | Scalar s => s <> []
          | Sequence l => Forall trimmed l
          end.
Proof.
  apply (@reader_block_shape ex_document (parsed ex_document)
           ([LF] ++ lit "Body text." ++ [LF])).
  vm_compute. reflexivity.
Defined.

(** ** When a migration raises *)







(** ** What the converter reads *)

Lemma fold_copy_ext (d d' : dict yaml_value) (ks : list str) :
  (forall k, In k ks -> dict_get k d = dict_get k d') ->
  forall nd, fold_left (copy_key d) ks nd = fold_left (copy_key d') ks nd.
Proof.
  induction ks as [|k ks IH]; intros H nd; simpl; [reflexivity|].
  unfold copy_key at 2 4. rewrite (H k) by now left.
  apply IH. intros k' Hk'. apply H. now right.
Qed.

(** X3: the converter's result depends only on the values stored under
    [authors], [author], [ORCID], [institution], [layout], [title] and the
    seven copied keys: on two blocks that agree on these keys (whatever
    their other keys and the order of their keys) it raises the same
    exception, or builds the same new block, or returns each block
    unchanged. *)
Theorem convert_reads_only (d d' : dict yaml_value) :
  (forall k, In k READ_KEYS -> dict_get k d = dict_get k d') ->
  convert_to_multiauthor d'
  = match convert_to_multiauthor d with
    | Ok (new, true) => Ok (new, true)
    | Ok (_, false) => Ok (unchanged d', false)
    | Raise e => Raise e
    end.
Proof.
  intros H.
  assert (Hk : forall k, In k READ_KEYS -> dict_get k d' = dict_get k d)
    by (intros k Hin; symmetry; now apply H).
  assert (Hcopy : forall nd, fold_left (copy_key d') COPIED_KEYS nd
                             = fold_left (copy_key d) COPIED_KEYS nd).
  { apply fold_copy_ext. intros k Hin. apply Hk.
    unfold READ_KEYS. apply in_or_app. now right. }
  unfold convert_to_multiauthor, dict_mem. cbv zeta.
  rewrite (Hk (lit "authors")) by (cbv; tauto).
  rewrite (Hk (lit "author")) by (cbv; tauto).
  destruct (dict_get (lit "authors") d); [reflexivity|].
  destruct (dict_get (lit "author") d) as [av|]; [|reflexivity].
  destruct (parse_names av) as [names|e]; [|reflexivity].
  cbn [bind]. unfold dict_get_default at 1 3.
  rewrite (Hk (lit "ORCID")) by (cbv; tauto).
  destruct (parse_orcids _) as [ids|e]; [|reflexivity].
  cbn [bind]. unfold new_record, dict_get_default.
  rewrite Hcopy.
  rewrite (Hk (lit "institution")) by (cbv; tauto).
  rewrite (Hk (lit "layout")) by (cbv; tauto).
  rewrite (Hk (lit "title")) by (cbv; tauto).
  reflexivity.
Qed.

Lemma convert_reads_only_witness :
  convert_to_multiauthor ex_pair_shuffled = Ok (converted ex_pair, true).
Proof.
  assert (H : forall k, In k READ_KEYS ->
                        dict_get k ex_pair = dict_get k ex_pair_shuffled).
  { intros k Hk. cbv in Hk. literal_cases Hk. }
  exact (convert_reads_only ex_pair ex_pair_shuffled H).
Defined.

(** ** Formatting of values *)

Lemma escape_char_head (c : ascii) (s r : str) :
  c <> BACKSLASH -> escape_char c s <> c :: r.
Proof.
  intros Hc. destruct s as [|x s]; simpl; [discriminate|].
  destruct (Ascii.eqb_spec x c) as [->|Hne]; simpl; congruence.
Qed.

Lemma escape_char_inj (c : ascii) (s s' : str) :
  escape_char c s = escape_char c s' -> s = s'.
Proof.
  revert s'. induction s as [|x s IH]; intros [|x' s']; simpl.
  - reflexivity.
  - destruct (Ascii.eqb x' c); discriminate.
  - destruct (Ascii.eqb x c); discriminate.
  - destruct (Ascii.eqb_spec x c) as [->|Hx];
      destruct (Ascii.eqb_spec x' c) as [->|Hx']; simpl; intros H.
    + inversion H. f_equal. now apply IH.
    + inversion H as [[Hb Ht]]. exfalso.
      apply (@escape_char_head c s' (escape_char c s)); congruence.
    + inversion H as [[Hb Ht]]. exfalso.
      apply (@escape_char_head c s (escape_char c s')); congruence.
    + inversion H. f_equal. now apply IH.
Qed.

(** X4: [format_yaml_value] never maps two different strings to the same
    text: a string is either returned as it is, and then does not start
    with a double quote, or wrapped in double quotes around an escaping
    that can be undone. *)
Theorem format_str_injective (v v' : str) :
  format_str v = format_str v' -> v = v'.
Proof.
  assert (Hmixed : forall a b : str,
             (contains [COLON] b || contains [HASH] b
              || startswith [DQUOTE] b || contains [LF] b) = false ->
             DQUOTE :: a <> b).
  { intros a b Hb <-. cbn [startswith] in Hb.
    rewrite Ascii.eqb_refl in Hb. cbn [andb] in Hb.
    rewrite orb_true_r in Hb. discriminate. }
  unfold format_str.
  destruct (contains [COLON] v || contains [HASH] v
            || startswith [DQUOTE] v || contains [LF] v) eqn:E;
    destruct (contains [COLON] v' || contains [HASH] v'
              || startswith [DQUOTE] v' || contains [LF] v') eqn:E';
    intros H.
  - inversion H as [H1]. apply app_inj_tail in H1 as [H1 _].
    now apply escape_char_inj in H1; apply escape_char_inj in H1.
  - exfalso. exact (Hmixed _ _ E' H).
  - exfalso. symmetry in H. exact (Hmixed _ _ E H).
  - exact H.
Qed.

Lemma format_str_injective_witness : lit "a: b" = lit "a: b".
Proof. exact (@format_str_injective (lit "a: b") (lit "a: b") eq_refl). Defined.

(** ** Writing a block and reading it back *)

Lemma format_str_unfold (v : str) :
  format_str v
  = if needs_quoting v
    then DQUOTE :: escape_char DQUOTE (escape_char BACKSLASH v) ++ [DQUOTE]
    else v.
Proof. reflexivity. Qed.

Lemma escape_char_absent (c : ascii) (s : str) :
  ~ In c s -> escape_char c s = s.
Proof.
  induction s as [|x s IH]; intros H; simpl; [reflexivity|].
  destruct (Ascii.eqb_spec x c) as [->|Hne].
  - exfalso. apply H. now left.
  - simpl. rewrite IH; [reflexivity | intros ?; apply H; now right].
Qed.

Lemma drop_while_length (p : ascii -> bool) (s : str) :
  length (drop_while p s) <= length s.
Proof.
  induction s as [|a s IH]; simpl; [lia|]. destruct (p a); simpl; lia.
Qed.

Lemma lstrip_head (c : ascii) (s : str) :
  lstrip (c :: s) = c :: s -> isspace c = false.
Proof.
  unfold lstrip. simpl. destruct (isspace c); [|reflexivity].
  intros H. apply (f_equal (@length ascii)) in H. simpl in H.
  pose proof (drop_while_length isspace s). lia.
Qed.

Lemma trimmed_ends (c c' : ascii) (m : str) :
  isspace c = false -> isspace c' = false -> trimmed (c :: m ++ [c']).
Proof.
  intros Hc Hc'. split.
  - unfold lstrip. simpl. now rewrite Hc.
  - assert (E : rev (c :: m ++ [c']) = c' :: rev (c :: m))
      by (change (c :: m ++ [c']) with ((c :: m) ++ [c']); apply rev_unit).
    unfold rstrip. rewrite E. cbn [drop_while]. rewrite Hc'.
    rewrite <- E. apply rev_involutive.
Qed.

Lemma strip_leading_space (s : str) : strip (" "%char :: s) = strip s.
Proof. reflexivity. Qed.

Lemma strip_not_nil (c : ascii) (s : str) :
  In c s -> isspace c = false -> is_empty (strip s) = false.
Proof.
  intros Hin Hc. destruct (strip s) eqn:E; [|reflexivity].
  apply strip_nil_iff in E. rewrite forallb_forall in E.
  rewrite (E _ Hin) in Hc. discriminate.
Qed.

Lemma partition_app (c : ascii) (k r : str) :
  ~ In c k -> partition c (k ++ c :: r) = (k, r).
Proof.
  induction k as [|x k IH]; intros H; simpl.
  - now rewrite Ascii.eqb_refl.
  - destruct (Ascii.eqb_spec x c) as [->|_]; [exfalso; apply H; now left|].
    rewrite IH; [reflexivity | intros ?; apply H; now right].
Qed.

Lemma unquote_quoted (m : str) : unquote (DQUOTE :: m ++ [DQUOTE]) = m.
Proof.
  assert (Hs : startswith [DQUOTE] (DQUOTE :: m ++ [DQUOTE]) = true)
    by reflexivity.
  assert (He : endswith [DQUOTE] (DQUOTE :: m ++ [DQUOTE]) = true).
  { unfold endswith.
    change (DQUOTE :: m ++ [DQUOTE]) with ((DQUOTE :: m) ++ [DQUOTE]).
    rewrite rev_app_distr. reflexivity. }
  unfold unquote. rewrite Hs, He. cbn [andb].
  unfold slice_1_m1. cbn [tl]. apply removelast_last.
Qed.

Lemma key_line_not_item (k r : str) :
  trimmed k -> startswith (lit "-") k = false ->
  startswith (lit "  - ") (k ++ COLON :: r) = false
  /\ startswith (lit "- ") (k ++ COLON :: r) = false.
Proof.
  intros [Hl _] Hd. destruct k as [|c k]; [split; reflexivity|].
  apply lstrip_head in Hl. split.
  - change (lit "  - ") with (" "%char :: lit " - "). cbn [app startswith].
    destruct (Ascii.eqb_spec " " c) as [<-|_]; [discriminate | reflexivity].
  - change (lit "- ") with ("-"%char :: lit " "). cbn [app startswith].
    change (Ascii.eqb "-" c && true = false) in Hd.
    destruct (Ascii.eqb "-" c); [discriminate | reflexivity].
Qed.

(** The line of a scalar is read back as the scalar. *)
Lemma parse_scalar_line (st : reader_state) (k v : str) :
  roundtrip_key k -> roundtrip_scalar v ->
  parse_line st (k ++ lit ": " ++ format_str v)
  = {| data := dict_set k (Scalar v) (data st); current_list := None |}.
Proof.
  intros (Ht & Hc & _ & Hd & _) (Hne & Hnolf & Hv).
  change (k ++ lit ": " ++ format_str v)
    with (k ++ COLON :: " "%char :: format_str v).
  destruct (key_line_not_item (" "%char :: format_str v) Ht Hd) as [H1 H2].
  rewrite parse_line_unfold; try assumption.
  - rewrite partition_app by assumption. cbn [fst snd].
    rewrite (trimmed_strip Ht), strip_leading_space.
    assert (Hval : unquote (strip (format_str v)) = v).
    { rewrite format_str_unfold. destruct (needs_quoting v).
      - destruct Hv as [Hb Hq].
        rewrite (@escape_char_absent BACKSLASH v Hb).
        rewrite (@escape_char_absent DQUOTE v Hq).
        rewrite trimmed_strip by (apply trimmed_ends; reflexivity).
        apply unquote_quoted.
      - destruct Hv as [Htv Hu]. rewrite (trimmed_strip Htv). exact Hu. }
    cbv zeta. rewrite Hval. destruct v; [congruence | reflexivity].
  - apply (@strip_not_nil COLON); [|reflexivity].
    apply in_or_app. right. now left.
  - apply contains_single. apply in_or_app. right. now left.
Qed.

(** The line of a key with a list is read back as the empty list. *)
Lemma parse_key_line (st : reader_state) (k : str) :
  roundtrip_key k ->
  parse_line st (k ++ [COLON])
  = {| data := dict_set k (Sequence []) (data st); current_list := Some k |}.
Proof.
  intros (Ht & Hc & _ & Hd & _).
  destruct (key_line_not_item [] Ht Hd) as [H1 H2].
  rewrite parse_line_unfold; try assumption.
  - rewrite partition_app by assumption. cbn [fst snd].
    rewrite (trimmed_strip Ht). reflexivity.
  - apply (@strip_not_nil COLON); [|reflexivity].
    apply in_or_app. right. now left.
  - apply contains_single. apply in_or_app. right. now left.
Qed.

Lemma dict_set_set {V} (k : str) (v w : V) (d : dict V) :
  dict_set k v (dict_set k w d) = dict_set k v d.
Proof.
  induction d as [|[k' v'] d IH]; simpl.
  - now rewrite str_eqb_refl.
  - destruct (str_eqb k' k) eqn:E; simpl; rewrite E; [reflexivity|].
    now rewrite IH.
Qed.

(** The item lines are appended to the list of the key before them. *)
Lemma parse_item_lines (k : str) (items : list str) :
  Forall roundtrip_item items ->
  forall (d : dict yaml_value) (acc : list str),
    fold_left parse_line
      (map (fun item => lit "  - " ++ format_str item) items)
      {| data := dict_set k (Sequence acc) d; current_list := Some k |}
    = {| data := dict_set k (Sequence (acc ++ items)) d;
         current_list := Some k |}.
Proof.
  induction 1 as [|item items (Hnolf & Ht & Hq) Hitems IH]; intros d acc.
  - simpl. now rewrite app_nil_r.
  - cbn [map fold_left].
    assert (Hline : parse_line
                      {| data := dict_set k (Sequence acc) d;
                         current_list := Some k |}
                      (lit "  - " ++ format_str item)
                    = {| data := dict_set k (Sequence (acc ++ [item])) d;
                         current_list := Some k |}).
    { rewrite format_str_unfold, Hq. unfold parse_line.
      rewrite (@strip_not_nil "-"%char) by (try reflexivity; cbv; tauto).
      change (startswith (lit "  - ") (lit "  - " ++ item)) with true.
      cbv iota. change (skipn 4 (lit "  - " ++ item)) with item.
      rewrite (trimmed_strip Ht). unfold list_append. cbn [current_list data].
      rewrite dict_get_set_same, dict_set_set. reflexivity. }
    rewrite Hline, IH. now rewrite <- app_assoc.
Qed.

Lemma item_lines_plain (items : list str) :
  Forall roundtrip_item items ->
  Forall plain_line (map (fun item => lit "  - " ++ format_str item) items).
Proof.
  intros H. apply Forall_map. eapply Forall_impl; [|exact H].
  intros item (Hnolf & _ & _). plain_literal_prefix.
  now apply format_str_nolf.
Qed.

Lemma key_line_plain (k r : str) :
  nolf k -> startswith (lit "-") k = false -> nolf r ->
  plain_line (k ++ COLON :: r).
Proof.
  intros Hk Hd Hr. split.
  - apply nolf_app; [assumption|]. constructor; [discriminate | assumption].
  - destruct k as [|c k]; [reflexivity|]. exact Hd.
Qed.

(** The lines of one entry: what they are, and what the reader does on
    them. *)
Lemma entry_roundtrip (k : str) (v : yaml_value) :
  roundtrip_key k -> roundtrip_value v ->
  exists ls,
    entry_lines k (Field v) = Ok ls
    /\ ls <> []
    /\ Forall plain_line ls
    /\ forall st, data (fold_left parse_line ls st) = dict_set k v (data st).
Proof.
  intros Hk Hv.
  pose proof Hk as (Ht & Hc & Hnolf & Hd & Ha).
  apply str_eqb_neq in Ha. unfold entry_lines. rewrite Ha.
  destruct v as [s|items].
  - eexists. split; [reflexivity|]. split; [discriminate|]. split.
    + constructor; [|constructor].
      change (k ++ lit ": " ++ format_str s)
        with (k ++ COLON :: " "%char :: format_str s).
      apply key_line_plain; try assumption.
      constructor; [discriminate|]. apply format_str_nolf. apply Hv.
    + intros st. cbn [fold_left]. now rewrite parse_scalar_line.
  - eexists. split; [reflexivity|]. split; [discriminate|]. split.
    + constructor.
      * apply key_line_plain; try assumption. constructor.
      * now apply item_lines_plain.
    + intros st. cbn [fold_left]. rewrite parse_key_line by assumption.
      rewrite parse_item_lines by assumption. reflexivity.
Qed.

Lemma block_roundtrip (d : dict yaml_value) :
  Forall roundtrip_entry d ->
  exists ls,
    block_lines (unchanged d) = Ok ls
    /\ (d <> [] -> ls <> [])
    /\ Forall plain_line ls
    /\ forall st, data (fold_left parse_line ls st) = store d (data st).
Proof.
  induction 1 as [|[k v] d [Hk Hv] Hd (ls & Hls & Hne & Hplain & Hfold)].
  - exists []. repeat split; try constructor. congruence.
  - destruct (@entry_roundtrip k v Hk Hv) as (l1 & Hl1 & Hne1 & Hp1 & Hf1).
    exists (l1 ++ ls). cbn [unchanged map fst snd block_lines].
    rewrite Hl1. fold (unchanged d). rewrite Hls. cbn [bind].
    split; [reflexivity|]. split.
    { intros _ Happ. apply app_eq_nil in Happ as [H1 _]. contradiction. }
    split; [apply Forall_app; now split|].
    intros st. rewrite fold_left_app, Hfold, Hf1. reflexivity.
Qed.

Lemma store_fresh (d : dict yaml_value) :
  NoDup (keys d) ->
  forall acc, (forall k, In k (keys d) -> dict_get k acc = None) ->
              store d acc = acc ++ d.
Proof.
  unfold store, keys.
  induction d as [|[k v] d IH]; intros Hnd acc Hfresh; simpl.
  - now rewrite app_nil_r.
  - simpl in Hnd. inversion Hnd as [|? ? Hk Hnd']; subst.
    rewrite dict_set_fresh by (apply Hfresh; now left).
    rewrite IH; [now rewrite <- app_assoc | assumption |].
    intros k' Hk'. rewrite dict_get_app, Hfresh by now right.
    simpl. destruct (str_eqb k k') eqn:E; [|reflexivity].
    apply str_eqb_eq in E; subst k'. contradiction.
Qed.

(** X5: a block that is not empty, whose keys are distinct, trimmed,
    without a colon or a newline, do not start with a dash and are not
    [authors], and whose values are round-trip values (see
    [roundtrip_scalar] and [roundtrip_item]) is written without an error,
    and the reader returns the same block and the same remainder from the
    written text. *)
Theorem write_read_roundtrip (d : dict yaml_value) (remainder : str) :
  d <> [] -> NoDup (keys d) -> Forall roundtrip_entry d ->
  exists out,
    write_yaml_frontmatter (unchanged d) remainder = Ok out
    /\ parse_yaml_frontmatter out = (Some d, remainder).
Proof.
  intros Hne Hnd Hd.
  destruct (block_roundtrip Hd) as (ls & Hls & Hlsne & Hplain & Hfold).
  specialize (Hlsne Hne).
  exists (OPEN_DELIM ++ join [LF] ls ++ CLOSE_DELIM ++ remainder). split.
  - unfold write_yaml_frontmatter. rewrite Hls. cbn [bind].
    now rewrite join_delims.
  - unfold parse_yaml_frontmatter.
    rewrite startswith_app, skipn_length_app.
    rewrite lazy_until_lines by assumption.
    rewrite split_join_lines by (try assumption; now apply plain_lines_no_lf).
    unfold parse_lines. rewrite Hfold. cbn [data init_state].
    rewrite store_fresh; [reflexivity | assumption | reflexivity].
Qed.

Ltac absent_literal := cbv; intros H; literal_cases H.

Ltac roundtrip_key_literal :=
  split; [split; reflexivity|];
  split; [absent_literal|];
  split; [nolf_literal|];
  split; [reflexivity | discriminate].

Ltac roundtrip_scalar_literal :=
  split; [discriminate|];
  split; [nolf_literal|];
  match goal with
  | |- if needs_quoting ?v then _ else _ =>
      let b := eval vm_compute in (needs_quoting v) in
      change (needs_quoting v) with b; cbv iota
  end;
  first [ split; [split; reflexivity | reflexivity]
        | split; absent_literal ].

Ltac roundtrip_item_literal :=
  split; [nolf_literal|]; split; [split; reflexivity | reflexivity].

Lemma write_read_roundtrip_witness :
  exists out,
    write_yaml_frontmatter (unchanged ex_legacy_block) (LF :: lit "Body")
    = Ok out
    /\ parse_yaml_frontmatter out = (Some ex_legacy_block, LF :: lit "Body").
Proof.
  apply write_read_roundtrip.
  - discriminate.
  - unfold ex_legacy_block, keys. cbn [map fst].
    repeat (constructor; [intros H; cbv in H; literal_cases H|]).
    constructor.
  - unfold ex_legacy_block.
    constructor; [split; [roundtrip_key_literal | roundtrip_scalar_literal]|].
    constructor; [split; [roundtrip_key_literal | roundtrip_scalar_literal]|].
    constructor; [split; [roundtrip_key_literal | roundtrip_scalar_literal]|].
    constructor; [split; [roundtrip_key_literal|]|constructor].
    cbn [snd roundtrip_value].
    constructor; [roundtrip_item_literal|].
    constructor; [roundtrip_item_literal | constructor].
Defined.

(** ** The loop of [main] *)

Lemma migrate_file_at_cases (dry_run : bool) (content : str) :
  (exists e, migrate_file content = Raise e
             /\ migrate_file_at dry_run content = Raise e)
  \/ (migrate_file content = Ok None
      /\ migrate_file_at dry_run content = Ok (false, content))
  \/ (exists out, migrate_file content = Ok (Some out)
                  /\ migrate_file_at dry_run content
                     = Ok (true, if dry_run then content else out)).
Proof.
  unfold migrate_file_at.
  destruct (migrate_file content) as [[out|]|e]; cbn [bind]; eauto 6.
Qed.

(** A migrated text is skipped when it is migrated again. *)
Lemma migrate_file_again (content out : str) :
  migrate_file content = Ok (Some out) -> migrate_file out = Ok None.
Proof.
  unfold migrate_file at 1.
  destruct (parse_yaml_frontmatter content) as [[d|] remainder] eqn:Hp;
    [|discriminate].
  destruct (convert_to_multiauthor d) as [[new changed]|e] eqn:Hc;
    [|discriminate].
  cbn [bind]. destruct changed; cbn [negb]; [|discriminate].
  destruct (reread_migrated _ Hp Hc) as (ls & _ & Hw & Hr & Hmem).
  rewrite Hw. cbn [bind]. intros H.
  assert (Hout : out = OPEN_DELIM ++ join [LF] ls ++ CLOSE_DELIM ++ remainder)
    by congruence.
  rewrite Hout. unfold migrate_file. rewrite Hr.
  rewrite convert_skips by now left. reflexivity.
Qed.

Lemma main_loop_step (dry_run : bool) (name content : str)
  (rest : list (str * str)) (m s : nat) :
  (startswith (lit "test_") name = true
   /\ main_loop dry_run ((name, content) :: rest) m s
      = ((name, content) :: fst (main_loop dry_run rest m (S s)),
         snd (main_loop dry_run rest m (S s))))
  \/ (startswith (lit "test_") name = false
      /\ ((exists e, migrate_file content = Raise e
                     /\ main_loop dry_run ((name, content) :: rest) m s
                        = ((name, content) :: rest, Raise e))
          \/ (migrate_file content = Ok None
              /\ main_loop dry_run ((name, content) :: rest) m s
                 = ((name, content) :: fst (main_loop dry_run rest m (S s)),
                    snd (main_loop dry_run rest m (S s))))
          \/ (exists out,
                 migrate_file content = Ok (Some out)
                 /\ main_loop dry_run ((name, content) :: rest) m s
                    = ((name, if dry_run then content else out)
                         :: fst (main_loop dry_run rest (S m) s),
                       snd (main_loop dry_run rest (S m) s))))).
Proof.
  cbn [main_loop]. destruct (startswith (lit "test_") name).
  - left. split; [reflexivity|].
    destruct (main_loop dry_run rest m (S s)); reflexivity.
  - right. split; [reflexivity|].
    destruct (migrate_file_at_cases dry_run content)
      as [(e & Hm & ->) | [(Hm & ->) | (out & Hm & ->)]].
    + left. eauto.
    + right. left. split; [exact Hm|].
      destruct (main_loop dry_run rest m (S s)); reflexivity.
    + right. right. exists out. split; [exact Hm|].
      destruct (main_loop dry_run rest (S m) s); reflexivity.
Qed.

(** X7: whatever the loop does, the files after it have the same names in
    the same order; a file whose name starts with [test_] keeps its
    content; in a dry run every file keeps its content; and when the loop
    ends without an exception, the two counters add up to the number of
    files. *)
Theorem main_loop_accounts (dry_run : bool) (files : list (str * str)) :
  Forall2 (fun before after =>
             fst after = fst before
             /\ (startswith (lit "test_") (fst before) = true ->
                 after = before))
    files (fst (main_loop dry_run files 0 0))
  /\ (dry_run = true -> fst (main_loop dry_run files 0 0) = files)
  /\ (forall migrated skipped,
        snd (main_loop dry_run files 0 0) = Ok (migrated, skipped) ->
        migrated + skipped = length files).
Proof.
  assert (H : forall m s,
             Forall2 (fun before after =>
                        fst after = fst before
                        /\ (startswith (lit "test_") (fst before) = true ->
                            after = before))
               files (fst (main_loop dry_run files m s))
             /\ (dry_run = true -> fst (main_loop dry_run files m s) = files)
             /\ (forall migrated skipped,
                   snd (main_loop dry_run files m s) = Ok (migrated, skipped) ->
                   migrated + skipped = m + s + length files)).
  { induction files as [|[name content] rest IH]; intros m s.
    - cbn. split; [constructor|]. split; [reflexivity|].
      intros ? ? H; inversion H. lia.
    - destruct (main_loop_step dry_run name content rest m s)
        as [[Ht ->] | [Ht [(e & _ & ->) | [(_ & ->) | (out & _ & ->)]]]];
        cbn [fst snd length].
      + destruct (IH m (S s)) as (IH1 & IH2 & IH3).
        split; [constructor; [split; auto | exact IH1]|].
        split; [intros Hd; now rewrite IH2|].
        intros mi sk Hr. specialize (IH3 _ _ Hr). lia.
      + split.
        { constructor; [split; auto|].
          clear. induction rest; constructor; auto. }
        split; [reflexivity | discriminate].
      + destruct (IH m (S s)) as (IH1 & IH2 & IH3).
        split; [constructor; [split; auto | exact IH1]|].
        split; [intros Hd; now rewrite IH2|].
        intros mi sk Hr. specialize (IH3 _ _ Hr). lia.
      + destruct (IH (S m) s) as (IH1 & IH2 & IH3).
        split.
        { constructor; [|exact IH1]. split; [reflexivity|].
          cbn [fst]. rewrite Ht. discriminate. }
        split; [intros ->; now rewrite IH2|].
        intros mi sk Hr. specialize (IH3 _ _ Hr). lia. }
  destruct (H 0 0) as (H1 & H2 & H3). split; [exact H1|].
  split; [exact H2|]. intros mi sk Hr. now apply H3.
Qed.

Lemma main_loop_accounts_witness :
  fst (main_loop true ex_directory 0 0) = ex_directory.
Proof.
  exact (proj1 (proj2 (main_loop_accounts true ex_directory)) eq_refl).
Defined.


(** X9: when the loop (not a dry run) ends without an exception, running
    it again on the files it left changes no file and skips every file. *)
Theorem main_loop_idempotent (files files' : list (str * str))
  (migrated skipped : nat) :
  main_loop false files 0 0 = (files', Ok (migrated, skipped)) ->
  main_loop false files' 0 0 = (files', Ok (0, length files)).
Proof.
  assert (H : forall m s m' s' r,
             main_loop false files m s = (files', Ok r) ->
             main_loop false files' m' s'
             = (files', Ok (m', s' + length files))).
  { revert files'.
    induction files as [|[name content] rest IH]; intros files' m s m' s' r.
    - cbn. intros H; inversion H; subst. cbn. now rewrite Nat.add_0_r.
    - destruct (main_loop false rest m (S s)) as [f1 r1] eqn:E1.
      destruct (main_loop false rest (S m) s) as [f2 r2] eqn:E2.
      destruct (main_loop_step false name content rest m s)
        as [[Ht ->] | [Ht [(e & _ & ->) | [(Hn & ->) | (out & Ho & ->)]]]];
        rewrite ?E1, ?E2; cbn [fst snd]; intros H; inversion H; subst;
        clear H.
      + destruct (main_loop_step false name content f1 m' s')
          as [[_ ->] | [Ht' _]]; [|congruence].
        rewrite (IH f1 m (S s) m' (S s') r E1). cbn [fst snd length].
        do 2 f_equal. f_equal. lia.
      + destruct (main_loop_step false name content f1 m' s')
          as [[Ht' _] | [_ [(e & He & _) | [(_ & ->) | (out & Ho & _)]]]];
          try congruence.
        rewrite (IH f1 m (S s) m' (S s') r E1). cbn [fst snd length].
        do 2 f_equal. f_equal. lia.
      + apply migrate_file_again in Ho.
        destruct (main_loop_step false name out f2 m' s')
          as [[Ht' _] | [_ [(e & He & _) | [(_ & ->) | (out' & Ho' & _)]]]];
          try congruence.
        rewrite (IH f2 (S m) s m' (S s') r E2). cbn [fst snd length].
        do 2 f_equal. f_equal. lia. }
  intros Hrun. exact (H 0 0 0 0 _ Hrun).
Qed.

Lemma main_loop_idempotent_witness :
  main_loop false (fst (main_loop false ex_directory 0 0)) 0 0
  = (fst (main_loop false ex_directory 0 0), Ok (0, 3)).
Proof.
  apply (@main_loop_idempotent ex_directory
           (fst (main_loop false ex_directory 0 0)) 1 2).
  vm_compute. reflexivity.
Defined.

(** ** Quoted values are not unescaped *)

Lemma escape_char_length (c : ascii) (s : str) :
  length s <= length (escape_char c s)
  /\ (length (escape_char c s) = length s -> ~ In c s).
Proof.
  unfold escape_char.
  induction s as [|x s [IH1 IH2]]; simpl; [split; [lia | tauto]|].
  destruct (Ascii.eqb_spec x c) as [->|Hne]; simpl.
  - split; [lia|]. intros H. exfalso. lia.
  - split; [lia|]. intros H [Hx|Hin]; [congruence|].
    apply IH2; [lia | assumption].
Qed.

Lemma escaped_twice_same (v : str) :
  escape_char DQUOTE (escape_char BACKSLASH v) = v
  <-> ~ In BACKSLASH v /\ ~ In DQUOTE v.
Proof.
  split.
  - intros H.
    destruct (escape_char_length BACKSLASH v) as [L1 N1].
    destruct (escape_char_length DQUOTE (escape_char BACKSLASH v))
      as [L2 N2].
    assert (Hl : length (escape_char BACKSLASH v) = length v)
      by (rewrite H in L2; lia).
    pose proof (N1 Hl) as Hb. split; [exact Hb|].
    rewrite (@escape_char_absent BACKSLASH v Hb) in N2.
    apply N2. now rewrite (@escape_char_absent BACKSLASH v Hb) in H; rewrite H.
  - intros [Hb Hq].
    rewrite (@escape_char_absent BACKSLASH v Hb).
    now apply escape_char_absent.
Qed.

(** X6: the reader removes the quotes that the writer puts around a
    scalar, but does not undo the escaping: for a scalar that is written
    in quotes, the reader stores, from the written line, the scalar with
    every backslash and then every double quote preceded by a backslash.
    That is the scalar itself exactly when it has no backslash and no
    double quote. *)
Theorem quoted_scalar_reread (st : reader_state) (k v : str) :
  roundtrip_key k -> needs_quoting v = true ->
  parse_line st (k ++ lit ": " ++ format_str v)
  = {| data := dict_set k
                 (Scalar (escape_char DQUOTE (escape_char BACKSLASH v)))
                 (data st);
       current_list := None |}
  /\ (escape_char DQUOTE (escape_char BACKSLASH v) = v
      <-> ~ In BACKSLASH v /\ ~ In DQUOTE v).
Proof.
  intros (Ht & Hc & _ & Hd & _) Hq. split; [|apply escaped_twice_same].
  change (k ++ lit ": " ++ format_str v)
    with (k ++ COLON :: " "%char :: format_str v).
  destruct (key_line_not_item (" "%char :: format_str v) Ht Hd) as [H1 H2].
  rewrite parse_line_unfold; try assumption.
  - rewrite partition_app by assumption. cbn [fst snd].
    rewrite (trimmed_strip Ht), strip_leading_space.
    rewrite format_str_unfold, Hq.
    rewrite trimmed_strip by (apply trimmed_ends; reflexivity).
    rewrite unquote_quoted. cbv zeta.
    destruct (escape_char DQUOTE (escape_char BACKSLASH v)) eqn:E;
      [|reflexivity].
    exfalso.
    destruct (escape_char_length BACKSLASH v) as [L1 _].
    destruct (escape_char_length DQUOTE (escape_char BACKSLASH v))
      as [L2 _].
    rewrite E in L2.
    assert (Hv : length v <= length (@nil ascii)) by lia.
    destruct v; [discriminate Hq | simpl in Hv; lia].
  - apply (@strip_not_nil COLON); [|reflexivity].
    apply in_or_app. right. now left.
  - apply contains_single. apply in_or_app. right. now left.
Qed.

Lemma quoted_scalar_reread_witness :
  parse_line init_state (lit "title" ++ lit ": " ++ format_str ex_quoted_title)
  = {| data :=
         [(lit "title",
           Scalar (lit "Soil: the " ++ [BACKSLASH; DQUOTE] ++ lit "dark"
                     ++ [BACKSLASH; DQUOTE] ++ lit " matter"))];
       current_list := None |}.
Proof.
  assert (Hk : roundtrip_key (lit "title")) by roundtrip_key_literal.
  exact (proj1 (@quoted_scalar_reread init_state (lit "title")
                  ex_quoted_title Hk eq_refl)).
Defined.

(** ** When the writer raises *)

Lemma block_lines_legacy (d : dict yaml_value) :
  (exists ls, block_lines (unchanged d) = Ok ls
              /\ forall v, In (lit "authors", v) d -> truthy v = false)
  \/ (block_lines (unchanged d) = Raise TypeError
      /\ exists v, In (lit "authors", v) d /\ truthy v = true).
Proof.
  induction d as [|[k v] d IH].
  - left. exists []. split; [reflexivity | intros v []].
  - cbn [unchanged map fst snd block_lines]. fold (unchanged d).
    unfold entry_lines.
    destruct (str_eqb k (lit "authors")) eqn:Ek.
    + apply str_eqb_eq in Ek; subst k.
      assert (Hcase : truthy v = true \/ truthy v = false)
        by (destruct (truthy v); auto).
      destruct Hcase as [Hv|Hv].
      * right. split; [|exists v; split; [now left | exact Hv]].
        destruct v as [[|c s]|[|x l]]; try discriminate; reflexivity.
      * assert (Hl : (match v with
                      | Scalar [] | Sequence [] => Ok [lit "authors:"]
                      | _ => Raise TypeError
                      end) = Ok [lit "authors:"])
          by (destruct v as [[|c s]|[|x l]]; try discriminate; reflexivity).
        destruct v as [[|c s]|[|x l]]; try discriminate;
          (destruct IH as [(ls & Hls & Hall) | (Hr & w & Hw & Ht)];
           [left; eexists; rewrite Hls; split; [reflexivity|];
            intros w [Hw|Hw]; [inversion Hw; reflexivity | now apply Hall]
           |right; rewrite Hr; split; [reflexivity|];
            exists w; split; [now right | exact Ht]]).
    + apply str_eqb_neq in Ek.
      destruct IH as [(ls & Hls & Hall) | (Hr & w & Hw & Ht)].
      * left. destruct v as [s|l]; eexists; rewrite Hls;
          (split; [reflexivity|]);
          intros w [Hw|Hw]; try (inversion Hw; congruence); now apply Hall.
      * right. rewrite Hr.
        split; [destruct v; reflexivity|].
        exists w. split; [now right | exact Ht].
Qed.

(** X10: on a block of scalars and lists, as the reader returns it, the
    writer raises exactly when the block has the key [authors] with a
    non-empty string or list (each element is then indexed by ['name']),
    and the exception is [TypeError]; on every other such block it
    returns a text. *)
Theorem write_legacy_raises (d : dict yaml_value) (remainder : str)
  (e : exn) :
  write_yaml_frontmatter (unchanged d) remainder = Raise e
  <-> e = TypeError
      /\ exists v, In (lit "authors", v) d /\ truthy v = true.
Proof.
  unfold write_yaml_frontmatter.
  destruct (block_lines_legacy d) as [(ls & -> & Hall) | (-> & Hex)];
    cbn [bind].
  - split; [discriminate|]. intros (_ & v & Hin & Ht).
    rewrite (Hall _ Hin) in Ht. discriminate.
  - split; [intros H; inversion H; auto | intros (-> & _); reflexivity].
Qed.

Lemma write_legacy_raises_witness :
  write_yaml_frontmatter (unchanged ex_reread_block) [] = Raise TypeError.
Proof.
  apply (proj2 (write_legacy_raises ex_reread_block [] TypeError)).
  split; [reflexivity|].
  exists (Sequence [lit "name: Jane Doe"]).
  split; [right; left; reflexivity | reflexivity].
Defined.

(** ** Names and the author value *)

(** X11: no text of an [author] value is dropped: the names are the
    trimmed pieces of the value, one name for each piece, and the pieces
    joined by the separator that was used (" and " or ", ") give the
    value back; when no piece has whitespace around it, the names joined
    by the separator are the value. *)
Theorem author_names_join (author_str : str) :
  exists sep pieces,
    (sep = lit " and " \/ sep = lit ", ")
    /\ author_names author_str = map strip pieces
    /\ join sep pieces = author_str
    /\ (Forall trimmed pieces ->
        join sep (author_names author_str) = author_str).
Proof.
  assert (Hjoin : forall sep pieces,
             author_names author_str = map strip pieces ->
             join sep pieces = author_str ->
             Forall trimmed pieces ->
             join sep (author_names author_str) = author_str).
  { intros sep pieces Hn Hj Ht. rewrite Hn, <- Hj. f_equal.
    rewrite <- (map_id pieces) at 2. apply map_ext_in.
    intros p Hp. apply trimmed_strip.
    rewrite Forall_forall in Ht. now apply Ht. }
  unfold author_names in *.
  destruct (contains (lit " and ") author_str).
  - exists (lit " and "), (split (lit " and ") author_str).
    split; [now left|]. split; [reflexivity|].
    assert (Hj : join (lit " and ") (split (lit " and ") author_str)
                 = author_str) by (apply join_split; discriminate).
    split; [exact Hj | now apply Hjoin].
  - destruct (_ && _).
    + exists (lit ", "), (split (lit ", ") author_str).
      split; [now right|]. split; [reflexivity|].
      assert (Hj : join (lit ", ") (split (lit ", ") author_str)
                   = author_str) by (apply join_split; discriminate).
      split; [exact Hj | now apply Hjoin].
    + exists (lit " and "), [author_str].
      split; [now left|]. split; [reflexivity|].
      split; [reflexivity | now apply Hjoin].
Qed.

(** ** Which texts are skipped *)

(** X12: [migrate_file] skips a text exactly when the reader finds no
    frontmatter in it, or the block has [authors], or the block has no
    [author]; in every other case it raises or returns a new text. *)
Theorem migrate_file_skips (content : str) :
  migrate_file content = Ok None
  <-> fst (parse_yaml_frontmatter content) = None
      \/ exists d remainder,
           parse_yaml_frontmatter content = (Some d, remainder)
           /\ (dict_mem (lit "authors") d = true
               \/ dict_mem (lit "author") d = false).
Proof.
  unfold migrate_file.
  destruct (parse_yaml_frontmatter content) as [[d|] remainder] eqn:Hp;
    cbn [fst]; [|split; auto].
  split.
  - intros H. right. exists d, remainder. split; [reflexivity|].
    destruct (dict_mem (lit "authors") d) eqn:Ea; [now left|]. right.
    destruct (dict_mem (lit "author") d) eqn:Eb; [|reflexivity].
    exfalso. unfold convert_to_multiauthor in H. rewrite Ea in H.
    unfold dict_mem in Eb.
    destruct (dict_get (lit "author") d) as [av|] eqn:Eav; [|discriminate].
    destruct (parse_names av) as [names|e]; [|discriminate].
    cbn [bind] in H.
    destruct (parse_orcids _) as [ids|e]; [|discriminate].
    cbn [bind negb] in H.
    destruct (write_yaml_frontmatter _ remainder); discriminate.
  - intros [H | (d' & rem' & H & Hcase)]; [discriminate|].
    inversion H; subst d' rem'; clear H.
    rewrite convert_skips; [reflexivity|].
    destruct Hcase as [Ha | Hb]; [now left|].
    destruct (dict_mem (lit "authors") d); [now left | right; auto].
Qed.

Lemma migrate_file_skips_witness :
  migrate_file (lit "No frontmatter here.") = Ok None.
Proof.
  apply (proj2 (migrate_file_skips (lit "No frontmatter here."))).
  left. reflexivity.
Defined.
